(** * Magnetic Shuttle: the background service worker, embedded and verified

    The service worker of the extension (background.js; the repository holds
    the file twice, with and without its console logging) reacts to three
    kinds of host events: a tab was moved, a tab was removed,
    the toggle command was invoked.  It talks to the browser only through
    the asynchronous [chrome.tabs] / [chrome.action] calls and through
    [setTimeout] / [clearTimeout].

    The embedding has two layers.

    - The asynchronous functions ([executeWithRetry], [processFinalPosition],
      [togglePinActiveTab], [flashBadge], [getPinnedTabCount]) are programs
      of a small free monad [prog]: a tree whose nodes are the awaited host
      calls and whose branches are the host's answers (a resolved value or a
      rejection carrying an error message).  A run of a program is the
      trace of calls and answers along one branch ([runs]); [exec] runs a
      program against an arbitrary host, and the two views agree
      ([exec_runs], [runs_exec]).  Nothing is assumed about what the
      browser answers.

    - The synchronous listeners ([onMoved], [onRemoved], the debounce timer
      callback) are functions on a [world]: the module-level [dragDebounce]
      map, the table of pending timers, and a clock.

    Console logging is dropped: it has no effect on any call. *)

From Stdlib Require Import ZArith QArith Qminmax Qpower Lia Lqa.
From stdpp Require Import gmap strings list.

Local Open Scope Z_scope.

(** ** Host data *)

(** A [chrome.tabs.Tab], restricted to the fields the program reads. *)
Module Tab.
Record t : Type := mk
  { id : Z; windowId : Z; index : Z; pinned : bool; title : string }.
End Tab.

(** The outcome of an awaited host promise: it resolves to a value or it
    rejects with an [Error] whose [message] is a string. *)
Inductive result (A : Type) : Type :=
| Resolved (value : A)
| Rejected (message : string).
Arguments Resolved {A} value.
Arguments Rejected {A} message.

(** The two [chrome.tabs.query] filters of the program:
    [{ windowId, pinned: true }] and [{ active: true, currentWindow: true }]. *)
Inductive queryInfo : Type :=
| PinnedInWindow (windowId : Z)
| ActiveInCurrentWindow.

(** The three closures the program hands to [setTimeout]. *)
Inductive callback : Type :=
| DebounceFire (tabId : Z)   (* () => { dragDebounce.delete(tabId); processFinalPosition(tabId) } *)
| ClearBadge                 (* () => chrome.action.setBadgeText({ text: '' }) *)
| ResolveBackoff.            (* resolve, of the promise awaited in the catch block *)

#[global] Instance callback_eq_dec : EqDecision callback.
Proof. solve_decision. Defined.

(** ** Asynchronous programs *)

(** One constructor per host call; [k] is the rest of the program after the
    [await].  [Sleep delay] is [await new Promise(resolve =>
    setTimeout(resolve, delay))]; [SetTimeout] is a timer that is started and
    not awaited. *)
Inductive prog (R : Type) : Type :=
| Ret (r : R)
| TabsGet (tabId : Z) (k : result Tab.t -> prog R)
| TabsQuery (q : queryInfo) (k : result (list Tab.t) -> prog R)
| TabsUpdate (tabId : Z) (pinned : bool) (k : result unit -> prog R)
| TabsMove (tabId : Z) (index : Z) (k : result unit -> prog R)
| SetBadgeText (text : string) (k : result unit -> prog R)
| SetBadgeBackgroundColor (color : string) (k : result unit -> prog R)
| SetTimeout (cb : callback) (delay : Z) (k : prog R)
| Sleep (delay : Q) (k : prog R).
Arguments Ret {R} r.
Arguments TabsGet {R} tabId k.
Arguments TabsQuery {R} q k.
Arguments TabsUpdate {R} tabId pinned k.
Arguments TabsMove {R} tabId index k.
Arguments SetBadgeText {R} text k.
Arguments SetBadgeBackgroundColor {R} color k.
Arguments SetTimeout {R} cb delay k.
Arguments Sleep {R} delay k.

Fixpoint bind {A B : Type} (p : prog A) (f : A -> prog B) : prog B :=
  match p with
  | Ret a => f a
  | TabsGet tabId k => TabsGet tabId (fun r => bind (k r) f)
  | TabsQuery q k => TabsQuery q (fun r => bind (k r) f)
  | TabsUpdate tabId b k => TabsUpdate tabId b (fun r => bind (k r) f)
  | TabsMove tabId i k => TabsMove tabId i (fun r => bind (k r) f)
  | SetBadgeText s k => SetBadgeText s (fun r => bind (k r) f)
  | SetBadgeBackgroundColor s k => SetBadgeBackgroundColor s (fun r => bind (k r) f)
  | SetTimeout cb d k => SetTimeout cb d (bind k f)
  | Sleep d k => Sleep d (bind k f)
  end.

(** [await] of a promise inside an async function: a rejection leaves the
    function (or reaches the enclosing [catch]). *)
Definition await {A B : Type} (p : prog (result A)) (f : A -> prog (result B))
  : prog (result B) :=
  bind p (fun r => match r with
                   | Resolved a => f a
                   | Rejected message => Ret (Rejected message)
                   end).

(** [let* x := p in q] sequences two programs; [let! x := p in q] is
    [const x = await p; q] with the rejection of [p] propagated. *)
Notation "'let*' x ':=' p 'in' q" := (bind p (fun x => q))
  (at level 10, x name, p at level 100, q at level 200, only parsing).
Notation "'let!' x ':=' p 'in' q" := (await p (fun x => q))
  (at level 10, x name, p at level 100, q at level 200, only parsing).

Definition chrome_tabs_get (tabId : Z) : prog (result Tab.t) :=
  TabsGet tabId Ret.
Definition chrome_tabs_query (q : queryInfo) : prog (result (list Tab.t)) :=
  TabsQuery q Ret.
Definition chrome_tabs_update (tabId : Z) (pinned : bool) : prog (result unit) :=
  TabsUpdate tabId pinned Ret.
Definition chrome_tabs_move (tabId : Z) (index : Z) : prog (result unit) :=
  TabsMove tabId index Ret.
Definition chrome_action_setBadgeText (text : string) : prog (result unit) :=
  SetBadgeText text Ret.
Definition chrome_action_setBadgeBackgroundColor (color : string)
  : prog (result unit) :=
  SetBadgeBackgroundColor color Ret.

(** ** The program *)

Definition DEBOUNCE_DELAY : Z := 600.

(** The badge texts are the pushpin and the outbox-tray emoji. *)
Definition PIN_BADGE : string := "📌".
Definition UNPIN_BADGE : string := "📤".
Definition GREEN : string := "#4CAF50".
Definition ORANGE : string := "#FF9800".

Definition getPinnedTabCount (windowId : Z) : prog (result Z) :=
  let! tabs := chrome_tabs_query (PinnedInWindow windowId) in
  Ret (Resolved (Z.of_nat (length tabs))).

Definition flashBadge (text color : string) : prog (result unit) :=
  let! _ := chrome_action_setBadgeText text in
  let! _ := chrome_action_setBadgeBackgroundColor color in
  SetTimeout ClearBadge 1500 (Ret (Resolved tt)).

(** [String.prototype.includes]. *)
Fixpoint includes (s sub : string) : bool :=
  String.prefix sub s
  || match s with
     | EmptyString => false
     | String _ s' => includes s' sub
     end.

Definition DRAG_LOCK : string := "user may be dragging".

(** [Math.min(100 * Math.pow(1.5, attempt), 2000)].  Below the cap every
    value is a double (the largest is 100 * 1.5^7 = 1708.59375), and from
    attempt 8 on the product exceeds 2000: with a correctly rounded
    [Math.pow] the rational number is the value the code computes. *)
Definition backoff_delay (attempt : nat) : Q :=
  Qmin (100 * (3 # 2) ^ Z.of_nat attempt) 2000.

(** The body of the [try] block of [executeWithRetry]: one attempt.  It
    returns [Resolved b] when the block executes [return b], and
    [Rejected message] when an awaited call throws. *)
Definition attempt (tabId : Z) (action : string) (targetIndex : option Z)
  : prog (result bool) :=
  let! tab := chrome_tabs_get tabId in
  if (action =? "pin")%string && negb (Tab.pinned tab) then
    let! _ := chrome_tabs_update tabId true in
    let! moveToIndex :=
      match targetIndex with
      | Some target =>
          let! count := getPinnedTabCount (Tab.windowId tab) in
          Ret (Resolved (Z.min target (count - 1)))
      | None => Ret (Resolved 0)
      end in
    let! _ := chrome_tabs_move tabId moveToIndex in
    let! _ := flashBadge PIN_BADGE GREEN in
    Ret (Resolved true)
  else if (action =? "unpin")%string && Tab.pinned tab then
    let! pinnedCount := getPinnedTabCount (Tab.windowId tab) in
    let! _ := chrome_tabs_update tabId false in
    let! _ :=
      match targetIndex with
      | Some target =>
          let newPinnedCount := pinnedCount - 1 in
          let moveToIndex := Z.max newPinnedCount target in
          chrome_tabs_move tabId moveToIndex
      | None => Ret (Resolved tt)
      end in
    let! _ := flashBadge UNPIN_BADGE ORANGE in
    Ret (Resolved true)
  else Ret (Resolved true).

(** The [for] loop: [remaining] is [maxRetries - attempt_no]. *)
Fixpoint retry (tabId : Z) (action : string) (targetIndex : option Z)
  (remaining : nat) (attempt_no : nat) : prog bool :=
  match remaining with
  | O => Ret false
  | S remaining' =>
      let* r := attempt tabId action targetIndex in
      match r with
      | Resolved b => Ret b
      | Rejected message =>
          if includes message DRAG_LOCK
          then Sleep (backoff_delay attempt_no)
                 (retry tabId action targetIndex remaining' (S attempt_no))
          else Ret false
      end
  end.

Definition executeWithRetry (tabId : Z) (action : string)
  (targetIndex : option Z) (maxRetries : nat) : prog bool :=
  retry tabId action targetIndex maxRetries 0.

Definition DEFAULT_MAX_RETRIES : nat := 15.

(** The decision taken inside [processFinalPosition]. *)
Inductive zone : Type :=
| Pin (targetIndex : Z)
| Unpin (targetIndex : Z)
| NoAction.

Definition classify (index : Z) (pinned : bool) (pinnedCount : Z) : zone :=
  let pinHit :=
    if negb pinned then
      let isFirstPin := (pinnedCount =? 0) && (index =? 0) in
      let atExactBoundary := (pinnedCount >? 0) && (index =? pinnedCount) in
      isFirstPin || atExactBoundary
    else false in
  if pinHit then Pin index
  else if pinned && (pinnedCount >=? 1) then
    let unpinZoneStart := Z.max 0 (pinnedCount - 2) in
    if index >=? unpinZoneStart then Unpin index else NoAction
  else NoAction.

Definition processFinalPosition (tabId : Z) : prog unit :=
  let* _ :=
    (let! tab := chrome_tabs_get tabId in
     let! pinnedCount := getPinnedTabCount (Tab.windowId tab) in
     match classify (Tab.index tab) (Tab.pinned tab) pinnedCount with
     | Pin i =>
         let* _ := executeWithRetry tabId "pin" (Some i) DEFAULT_MAX_RETRIES in
         Ret (Resolved tt)
     | Unpin i =>
         let* _ := executeWithRetry tabId "unpin" (Some i) DEFAULT_MAX_RETRIES in
         Ret (Resolved tt)
     | NoAction => Ret (Resolved tt)
     end) in
  Ret tt.

Definition togglePinActiveTab : prog (result unit) :=
  let! tabs := chrome_tabs_query ActiveInCurrentWindow in
  match tabs with
  | [] => Ret (Resolved tt)
  | tab :: _ =>
      if Tab.pinned tab then
        let! _ := chrome_tabs_update (Tab.id tab) false in
        flashBadge UNPIN_BADGE ORANGE
      else
        let! _ := chrome_tabs_update (Tab.id tab) true in
        flashBadge PIN_BADGE GREEN
  end.

(** ** Runs and traces *)

(** One awaited call together with the host's answer. *)
Inductive event : Type :=
| EvTabsGet (tabId : Z) (answer : result Tab.t)
| EvTabsQuery (q : queryInfo) (answer : result (list Tab.t))
| EvTabsUpdate (tabId : Z) (pinned : bool) (answer : result unit)
| EvTabsMove (tabId : Z) (index : Z) (answer : result unit)
| EvSetBadgeText (text : string) (answer : result unit)
| EvSetBadgeBackgroundColor (color : string) (answer : result unit)
| EvSetTimeout (cb : callback) (delay : Z)
| EvSleep (delay : Q).

(** [runs p tr r]: answering the calls of [p] as recorded in [tr] makes [p]
    perform exactly the calls of [tr] and return [r]. *)
Fixpoint runs {R : Type} (p : prog R) (tr : list event) (r : R) : Prop :=
  match p with
  | Ret x => tr = [] /\ r = x
  | TabsGet tabId k =>
      exists a tr', tr = EvTabsGet tabId a :: tr' /\ runs (k a) tr' r
  | TabsQuery q k =>
      exists a tr', tr = EvTabsQuery q a :: tr' /\ runs (k a) tr' r
  | TabsUpdate tabId b k =>
      exists a tr', tr = EvTabsUpdate tabId b a :: tr' /\ runs (k a) tr' r
  | TabsMove tabId i k =>
      exists a tr', tr = EvTabsMove tabId i a :: tr' /\ runs (k a) tr' r
  | SetBadgeText s k =>
      exists a tr', tr = EvSetBadgeText s a :: tr' /\ runs (k a) tr' r
  | SetBadgeBackgroundColor s k =>
      exists a tr', tr = EvSetBadgeBackgroundColor s a :: tr' /\ runs (k a) tr' r
  | SetTimeout cb d k =>
      exists tr', tr = EvSetTimeout cb d :: tr' /\ runs k tr' r
  | Sleep d k =>
      exists tr', tr = EvSleep d :: tr' /\ runs k tr' r
  end.

(** A host: any state with an answer to each call. *)
Record host (state : Type) : Type := Host
  { host_get : Z -> state -> result Tab.t * state;
    host_query : queryInfo -> state -> result (list Tab.t) * state;
    host_update : Z -> bool -> state -> result unit * state;
    host_move : Z -> Z -> state -> result unit * state;
    host_setBadgeText : string -> state -> result unit * state;
    host_setBadgeBackgroundColor : string -> state -> result unit * state;
    host_setTimeout : callback -> Z -> state -> state;
    host_sleep : Q -> state -> state }.
Arguments host_get {state} h.
Arguments host_query {state} h.
Arguments host_update {state} h.
Arguments host_move {state} h.
Arguments host_setBadgeText {state} h.
Arguments host_setBadgeBackgroundColor {state} h.
Arguments host_setTimeout {state} h.
Arguments host_sleep {state} h.

(** Running a program against a host: the trace, the returned value and the
    final host state. *)
Fixpoint exec {state R : Type} (h : host state) (p : prog R) (s : state)
  : list event * R * state :=
  match p with
  | Ret x => ([], x, s)
  | TabsGet tabId k =>
      let '(a, s1) := host_get h tabId s in
      let '(tr, r, s2) := exec h (k a) s1 in (EvTabsGet tabId a :: tr, r, s2)
  | TabsQuery q k =>
      let '(a, s1) := host_query h q s in
      let '(tr, r, s2) := exec h (k a) s1 in (EvTabsQuery q a :: tr, r, s2)
  | TabsUpdate tabId b k =>
      let '(a, s1) := host_update h tabId b s in
      let '(tr, r, s2) := exec h (k a) s1 in (EvTabsUpdate tabId b a :: tr, r, s2)
  | TabsMove tabId i k =>
      let '(a, s1) := host_move h tabId i s in
      let '(tr, r, s2) := exec h (k a) s1 in (EvTabsMove tabId i a :: tr, r, s2)
  | SetBadgeText txt k =>
      let '(a, s1) := host_setBadgeText h txt s in
      let '(tr, r, s2) := exec h (k a) s1 in (EvSetBadgeText txt a :: tr, r, s2)
  | SetBadgeBackgroundColor c k =>
      let '(a, s1) := host_setBadgeBackgroundColor h c s in
      let '(tr, r, s2) := exec h (k a) s1 in
      (EvSetBadgeBackgroundColor c a :: tr, r, s2)
  | SetTimeout cb d k =>
      let '(tr, r, s2) := exec h k (host_setTimeout h cb d s) in
      (EvSetTimeout cb d :: tr, r, s2)
  | Sleep d k =>
      let '(tr, r, s2) := exec h k (host_sleep h d s) in
      (EvSleep d :: tr, r, s2)
  end.

(** The host that answers from a script: its state is the list of events
    still to come, and each call is answered by the event at the head of the
    list (with a rejection when the script does not fit the call). *)
Definition replay_host : host (list event) :=
  Host (list event)
    (fun _ s => match s with
                | EvTabsGet _ a :: s' => (a, s')
                | _ => (Rejected "", s)
                end)
    (fun _ s => match s with
                | EvTabsQuery _ a :: s' => (a, s')
                | _ => (Rejected "", s)
                end)
    (fun _ _ s => match s with
                  | EvTabsUpdate _ _ a :: s' => (a, s')
                  | _ => (Rejected "", s)
                  end)
    (fun _ _ s => match s with
                  | EvTabsMove _ _ a :: s' => (a, s')
                  | _ => (Rejected "", s)
                  end)
    (fun _ s => match s with
                | EvSetBadgeText _ a :: s' => (a, s')
                | _ => (Rejected "", s)
                end)
    (fun _ s => match s with
                | EvSetBadgeBackgroundColor _ a :: s' => (a, s')
                | _ => (Rejected "", s)
                end)
    (fun _ _ s => tail s)
    (fun _ s => tail s).

(** *** Observations on traces *)

(** The error message of a rejected call. *)
Definition rejection (e : event) : option string :=
  match e with
  | EvTabsGet _ (Rejected m) | EvTabsQuery _ (Rejected m)
  | EvTabsUpdate _ _ (Rejected m) | EvTabsMove _ _ (Rejected m)
  | EvSetBadgeText _ (Rejected m) | EvSetBadgeBackgroundColor _ (Rejected m) =>
      Some m
  | _ => None
  end.

(** No call of the trace was rejected. *)
Definition all_resolved (tr : list event) : bool :=
  forallb (fun e => match rejection e with None => true | Some _ => false end) tr.

(** The call raised the transient drag-lock error. *)
Definition raises_drag_lock (e : event) : bool :=
  match rejection e with
  | Some m => includes m DRAG_LOCK
  | None => false
  end.

(** Every attempt of [executeWithRetry] opens with [chrome.tabs.get], and this
    is the only place the call is made. *)
Definition opens_attempt (e : event) : bool :=
  match e with EvTabsGet _ _ => true | _ => false end.

(** The trace of an [executeWithRetry] run cut into its attempts: a new
    piece starts at each [chrome.tabs.get]. *)
Fixpoint attempts_of (tr : list event) : list (list event) :=
  match tr with
  | [] => []
  | e :: tr' =>
      match tr' with
      | [] => [[e]]
      | e' :: _ =>
          if opens_attempt e' then [e] :: attempts_of tr'
          else match attempts_of tr' with
               | piece :: pieces => (e :: piece) :: pieces
               | [] => [[e]]
               end
      end
  end.

(** Every attempt of the run raised the drag-lock error: each piece holds a
    call rejected with that message. *)
Definition every_attempt_locked (tr : list event) : Prop :=
  Forall (fun piece => existsb raises_drag_lock piece = true) (attempts_of tr).

(** The waits of a trace, in order, and their sum. *)
Fixpoint waits (tr : list event) : list Q :=
  match tr with
  | [] => []
  | EvSleep d :: tr' => d :: waits tr'
  | _ :: tr' => waits tr'
  end.

Definition Qsum (l : list Q) : Q := fold_right Qplus 0%Q l.

(** The message of the first rejected call of a trace, and the events after
    that call. *)
Fixpoint first_rejection (tr : list event) : option (string * list event) :=
  match tr with
  | [] => None
  | e :: tr' =>
      match rejection e with
      | Some m => Some (m, tr')
      | None => first_rejection tr'
      end
  end.

(** The calls that change the browser's tabs or the badge. *)
Definition mutates (e : event) : bool :=
  match e with
  | EvTabsUpdate _ _ _ | EvTabsMove _ _ _
  | EvSetBadgeText _ _ | EvSetBadgeBackgroundColor _ _ | EvSetTimeout _ _ => true
  | _ => false
  end.

(** The feedback of [flashBadge] when the host accepts it. *)
Definition feedback (text color : string) : list event :=
  [ EvSetBadgeText text (Resolved tt);
    EvSetBadgeBackgroundColor color (Resolved tt);
    EvSetTimeout ClearBadge 1500 ].

Definition positive_feedback : list event := feedback PIN_BADGE GREEN.
Definition negative_feedback : list event := feedback UNPIN_BADGE ORANGE.

(** The trace of an unpin on a pinned tab, all calls accepted. *)
Definition unpin_trace (tabId : Z) (targetIndex : option Z) (tab : Tab.t)
  (tabs : list Tab.t) : list event :=
  let pinnedCount_before := Z.of_nat (length tabs) in
  [ EvTabsGet tabId (Resolved tab);
    EvTabsQuery (PinnedInWindow (Tab.windowId tab)) (Resolved tabs);
    EvTabsUpdate tabId false (Resolved tt) ]
  ++ match targetIndex with
     | Some target =>
         [ EvTabsMove tabId (Z.max (pinnedCount_before - 1) target)
             (Resolved tt) ]
     | None => []
     end
  ++ negative_feedback.

(** The trace of a pin on an unpinned tab, all calls accepted. *)
Definition pin_trace (tabId : Z) (targetIndex : option Z) (tab : Tab.t)
  (tabs : list Tab.t) : list event :=
  let pinnedCount_after := Z.of_nat (length tabs) in
  [ EvTabsGet tabId (Resolved tab);
    EvTabsUpdate tabId true (Resolved tt) ]
  ++ match targetIndex with
     | Some target =>
         [ EvTabsQuery (PinnedInWindow (Tab.windowId tab)) (Resolved tabs);
           EvTabsMove tabId (Z.min target (pinnedCount_after - 1))
             (Resolved tt) ]
     | None => [ EvTabsMove tabId 0 (Resolved tt) ]
     end
  ++ positive_feedback.

(** ** The drag debouncer *)

(** A pending timer of the platform: its id, the time at which it is due and
    the closure it will call. *)
Record timer : Type := Timer { timer_id : Z; due : Z; cb : callback }.

(** The state the listeners act on: the clock, the platform's timer table
    (in order of creation) with its next free id, the module-level
    [dragDebounce] map from tab id to timeout id, and the log of the calls
    [processFinalPosition(tabId)] made so far, each with the time of the
    call. *)
Record world : Type := World
  { now : Z;
    nextTimerId : Z;
    timers : list timer;
    dragDebounce : gmap Z Z;
    passes : list (Z * Z) }.

(** [setTimeout(cb, delay)]: a fresh id, due [delay] from now (a negative
    delay counts as 0). *)
Definition setTimeout (c : callback) (delay : Z) (w : world) : Z * world :=
  (nextTimerId w,
   World (now w) (nextTimerId w + 1)
     (timers w ++ [Timer (nextTimerId w) (now w + Z.max 0 delay) c])
     (dragDebounce w) (passes w)).

(** [clearTimeout(id)]: nothing happens when no such timer is pending. *)
Definition clearTimeout (id : Z) (w : world) : world :=
  World (now w) (nextTimerId w)
    (filter (fun tm => timer_id tm <> id) (timers w))
    (dragDebounce w) (passes w).

(** The [chrome.tabs.onMoved] listener. *)
Definition onMoved (tabId : Z) (w : world) : world :=
  let w1 := match dragDebounce w !! tabId with
            | Some pending => clearTimeout pending w
            | None => w
            end in
  let '(timeoutId, w2) := setTimeout (DebounceFire tabId) DEBOUNCE_DELAY w1 in
  World (now w2) (nextTimerId w2) (timers w2)
    (<[tabId := timeoutId]> (dragDebounce w2)) (passes w2).

(** The [chrome.tabs.onRemoved] listener. *)
Definition onRemoved (tabId : Z) (w : world) : world :=
  match dragDebounce w !! tabId with
  | Some pending =>
      let w1 := clearTimeout pending w in
      World (now w1) (nextTimerId w1) (timers w1)
        (delete tabId (dragDebounce w1)) (passes w1)
  | None => w
  end.

(** What a timer does when it fires.  The debounce closure deletes the entry
    and calls [processFinalPosition(tabId)]; the other two closures touch
    neither the map nor the timers. *)
Definition fire (c : callback) (w : world) : world :=
  match c with
  | DebounceFire tabId =>
      World (now w) (nextTimerId w) (timers w)
        (delete tabId (dragDebounce w)) (passes w ++ [(now w, tabId)])
  | ClearBadge => w
  | ResolveBackoff => w
  end.

(** The pending timer that is due first; among timers due at the same time,
    the one created first. *)
Fixpoint earliest (l : list timer) : option timer :=
  match l with
  | [] => None
  | tm :: l' =>
      match earliest l' with
      | Some tm' => if due tm' <? due tm then Some tm' else Some tm
      | None => Some tm
      end
  end.

Definition next_due (t : Z) (w : world) : option timer :=
  match earliest (timers w) with
  | Some tm => if due tm <=? t then Some tm else None
  | None => None
  end.

(** The event loop fires one timer: the clock reaches its due time, the timer
    leaves the table, its closure runs. *)
Definition fire_timer (tm : timer) (w : world) : world :=
  fire (cb tm)
    (World (Z.max (now w) (due tm)) (nextTimerId w)
       (filter (fun tm' => timer_id tm' <> timer_id tm) (timers w))
       (dragDebounce w) (passes w)).

Fixpoint fire_due (fuel : nat) (t : Z) (w : world) : world :=
  match fuel with
  | O => w
  | S fuel' =>
      match next_due t w with
      | Some tm => fire_due fuel' t (fire_timer tm w)
      | None => w
      end
  end.

(** Time passes until [t]: every timer due by then fires, in order.  No
    closure of the program starts a timer synchronously, so the table only
    shrinks and its length is fuel enough ([fire_due_complete]). *)
Definition advance_to (t : Z) (w : world) : world :=
  let w' := fire_due (length (timers w)) t w in
  World (Z.max (now w') t) (nextTimerId w') (timers w') (dragDebounce w')
    (passes w').

(** What reaches the service worker from outside the debouncer: the two tab
    notifications, and the timers started by the asynchronous functions
    ([flashBadge], and the backoff wait with its delay in whole time units). *)
Inductive input : Type :=
| Moved (tabId : Z)
| Removed (tabId : Z)
| FlashBadge
| Backoff (delay : Z).

#[global] Instance input_eq_dec : EqDecision input.
Proof. solve_decision. Defined.

Definition handle (i : input) (w : world) : world :=
  match i with
  | Moved tabId => onMoved tabId w
  | Removed tabId => onRemoved tabId w
  | FlashBadge => (setTimeout ClearBadge 1500 w).2
  | Backoff delay => (setTimeout ResolveBackoff delay w).2
  end.

(** An input stamped with its arrival time is handled after the timers due by
    then have fired. *)
Definition deliver (w : world) (ti : Z * input) : world :=
  handle ti.2 (advance_to ti.1 w).

Definition run (sched : list (Z * input)) (w : world) : world :=
  fold_left deliver sched w.

(** The service worker at start-up. *)
Definition boot : world := World 0 1 [] ∅ [].

(** Arrival times do not decrease. *)
Fixpoint chronological_from (t0 : Z) (sched : list (Z * input)) : bool :=
  match sched with
  | [] => true
  | (t, _) :: sched' => (t0 <=? t) && chronological_from t sched'
  end.

Definition chronological (sched : list (Z * input)) : bool :=
  chronological_from 0 sched.

(** The passes started for one tab. *)
Definition passes_of (tabId : Z) (w : world) : list (Z * Z) :=
  filter (fun p => p.2 = tabId) (passes w).

(** A burst for [tabId] whose latest move notification arrived at [last]:
    every further move notification for the tab arrives less than
    [DEBOUNCE_DELAY] after the previous one, and the tab is not removed.
    Inputs that concern other tabs or other timers may be interleaved.  The
    result is the arrival time of the last move notification of the burst. *)
Fixpoint burst (tabId last : Z) (sched : list (Z * input)) : option Z :=
  match sched with
  | [] => Some last
  | (t, Moved tabId') :: sched' =>
      if decide (tabId' = tabId) then
        if t <? last + DEBOUNCE_DELAY then burst tabId t sched' else None
      else burst tabId last sched'
  | (_, Removed tabId') :: sched' =>
      if decide (tabId' = tabId) then None else burst tabId last sched'
  | _ :: sched' => burst tabId last sched'
  end.

(** No move notification for [tabId]. *)
Definition no_move (tabId : Z) (sched : list (Z * input)) : bool :=
  forallb (fun ti => match ti.2 with
                     | Moved tabId' => negb (tabId' =? tabId)
                     | _ => true
                     end) sched.

(** The invariant of the reachable worlds: timer ids are fresh and identify
    their timer, the debounce timers are exactly the ones recorded in
    [dragDebounce], and no pending timer is overdue. *)
Record wf (w : world) : Prop := Wf
  { wf_fresh : forall tm, tm ∈ timers w -> timer_id tm < nextTimerId w;
    wf_ids : forall tm1 tm2,
        tm1 ∈ timers w -> tm2 ∈ timers w ->
        timer_id tm1 = timer_id tm2 -> tm1 = tm2;
    wf_registered : forall tm tabId,
        tm ∈ timers w -> cb tm = DebounceFire tabId ->
        dragDebounce w !! tabId = Some (timer_id tm);
    wf_pending : forall tabId pending,
        dragDebounce w !! tabId = Some pending ->
        exists d, Timer pending d (DebounceFire tabId) ∈ timers w;
    wf_future : forall tm, tm ∈ timers w -> now w <= due tm }.

(** The tab has a pending debounce timer due at [d]. *)
Definition pending_at (tabId d : Z) (w : world) : Prop :=
  exists timeoutId,
    dragDebounce w !! tabId = Some timeoutId
    /\ Timer timeoutId d (DebounceFire tabId) ∈ timers w.

(** ** What an execution may call *)


(** The number of [chrome.tabs.get] calls of a trace. *)
Definition reads (tr : list event) : nat :=
  length (filter (fun e => opens_attempt e = true) tr).

(** ** One tab, seen alone *)

(** The inputs that concern a tab: its move and its removal notifications. *)
Definition concerns (tabId : Z) (ti : Z * input) : Prop :=
  ti.2 = Moved tabId \/ ti.2 = Removed tabId.

(** Every input of the schedule arrives by [t_end]. *)
Definition arrive_by (t_end : Z) (sched : list (Z * input)) : bool :=
  forallb (fun ti => ti.1 <=? t_end) sched.

(** What the listeners keep for one tab, abstracted from the shared map and
    timer table: the time at which its pending timer is due, if it has one,
    and the passes started for it so far.  [tab_fire] lets time pass until
    [t], [tab_step] delivers one input.  These are used to follow one tab
    through a schedule ([tab_view_run]). *)
Definition tab_fire (tabId t : Z) (st : option Z * list (Z * Z))
  : option Z * list (Z * Z) :=
  match st.1 with
  | Some d => if d <=? t then (None, st.2 ++ [(d, tabId)]) else st
  | None => st
  end.

Definition tab_step (tabId : Z) (st : option Z * list (Z * Z))
  (ti : Z * input) : option Z * list (Z * Z) :=
  let st' := tab_fire tabId ti.1 st in
  if decide (ti.2 = Moved tabId) then (Some (ti.1 + DEBOUNCE_DELAY), st'.2)
  else if decide (ti.2 = Removed tabId) then (None, st'.2)
  else st'.

Definition tab_run (tabId : Z) (sched : list (Z * input))
  (st : option Z * list (Z * Z)) : option Z * list (Z * Z) :=
  fold_left (tab_step tabId) sched st.

(** The world agrees with the state kept for the tab. *)
Definition tab_view (tabId : Z) (st : option Z * list (Z * Z)) (w : world)
  : Prop :=
  passes_of tabId w = st.2
  /\ match st.1 with
     | Some d => pending_at tabId d w
     | None => dragDebounce w !! tabId = None
     end.

(** What holds of the state kept for a tab once the inputs [seen] have
    arrived, the clock being at [t0]: the pending timer was set by the latest
    notification of the tab, a move; every pass followed a move after the
    full delay with no notification of the tab in between; and each pass is
    at least the delay after the one before. *)
Definition quiet_between (tabId : Z) (seen : list (Z * input)) (t d : Z)
  : Prop :=
  forall ti, ti ∈ seen -> concerns tabId ti -> ti.1 <= t \/ d <= ti.1.

Record tab_inv (tabId : Z) (seen : list (Z * input)) (t0 : Z)
    (st : option Z * list (Z * Z)) : Prop := TabInv
  { inv_seen : forall ti, ti ∈ seen -> ti.1 <= t0;
    inv_pending : forall d, st.1 = Some d ->
        (d - DEBOUNCE_DELAY, Moved tabId) ∈ seen
        /\ (forall ti, ti ∈ seen -> concerns tabId ti ->
                       ti.1 <= d - DEBOUNCE_DELAY)
        /\ Forall (fun p => p.1 + DEBOUNCE_DELAY <= d) st.2;
    inv_out : Forall (fun p => p.2 = tabId /\ p.1 <= t0
                               /\ (p.1 - DEBOUNCE_DELAY, Moved tabId) ∈ seen
                               /\ quiet_between tabId seen
                                    (p.1 - DEBOUNCE_DELAY) p.1) st.2;
    inv_spaced : forall (i j : nat) p q,
        (i < j)%nat -> st.2 !! i = Some p -> st.2 !! j = Some q ->
        p.1 + DEBOUNCE_DELAY <= q.1 }.

(** The pending debounce timers of a tab. *)
Definition debounce_timers (tabId : Z) (w : world) : list timer :=
  filter (fun tm => cb tm = DebounceFire tabId) (timers w).

(** ** Sample data

    A window with three pinned tabs, tab 7 being the last of them, and the
    two kinds of error message of the host. *)

Definition tab7 (index : Z) (pinned : bool) : Tab.t :=
  Tab.mk 7 1 index pinned "Inbox".

Definition three_pinned : list Tab.t :=
  [Tab.mk 5 1 0 true "Mail"; Tab.mk 6 1 1 true "Chat"; tab7 2 true].

Definition LOCKED : string :=
  "Tabs cannot be edited right now (user may be dragging a tab).".

Definition GONE : string := "No tab with id: 7.".

(** A host that accepts every call: it reports the tab [tab] and answers every
    query with [tabs]. *)
Definition steady_host (tab : Tab.t) (tabs : list Tab.t) : host unit :=
  Host unit
    (fun _ s => (Resolved tab, s))
    (fun _ s => (Resolved tabs, s))
    (fun _ _ s => (Resolved tt, s))
    (fun _ _ s => (Resolved tt, s))
    (fun _ s => (Resolved tt, s))
    (fun _ s => (Resolved tt, s))
    (fun _ _ s => s)
    (fun _ s => s).

(** A host that rejects every call with the same message. *)
Definition failing_host (message : string) : host unit :=
  Host unit
    (fun _ s => (Rejected message, s))
    (fun _ s => (Rejected message, s))
    (fun _ _ s => (Rejected message, s))
    (fun _ _ s => (Rejected message, s))
    (fun _ s => (Rejected message, s))
    (fun _ s => (Rejected message, s))
    (fun _ _ s => s)
    (fun _ s => s).

(** A host whose user is still dragging: the state counts the
    [chrome.tabs.get] calls that are still rejected with the drag-lock
    message; after that the host is steady. *)
Definition dragging_host (locked : nat) (tab : Tab.t) (tabs : list Tab.t)
  : host nat :=
  Host nat
    (fun _ n => match n with
                | O => (Resolved tab, O)
                | S n' => (Rejected LOCKED, n')
                end)
    (fun _ n => (Resolved tabs, n))
    (fun _ _ n => (Resolved tt, n))
    (fun _ _ n => (Resolved tt, n))
    (fun _ n => (Resolved tt, n))
    (fun _ n => (Resolved tt, n))
    (fun _ _ n => n)
    (fun _ n => n).

(** A schedule: tab 8 is dragged, a badge is flashed, then tab 7 is dragged
    in three moves while tab 8 is moved again and closed. *)
Definition sample_history : list (Z * input) :=
  [(0, Moved 8); (100, FlashBadge)].

Definition sample_burst : list (Z * input) :=
  [(500, Moved 7); (600, Moved 8); (1000, Moved 7); (1100, Removed 8)].

(** * Properties of the asynchronous programs *)

(** ** Runs of sequenced programs *)

Lemma runs_bind {A B : Type} (p : prog A) (f : A -> prog B) tr r :
  runs (bind p f) tr r <->
  exists tr1 a tr2, tr = tr1 ++ tr2 /\ runs p tr1 a /\ runs (f a) tr2 r.
Proof.
  revert tr; induction p as [x|t k IH|q k IH|t b k IH|t i k IH|s k IH|s k IH|c d k IH|d k IH];
    intros tr; cbn [bind runs].
  { split.
    - intros H. exists [], x, tr. auto.
    - intros (tr1 & a & tr2 & -> & [-> ->] & H). exact H. }
  all: split;
    [ intros H; repeat (destruct H as [? H]); subst;
      apply IH in H as (tr1 & y & tr2 & -> & H1 & H2);
      eexists (_ :: tr1), y, tr2; eauto 10
    | intros (tr1 & y & tr2 & -> & H1 & H2);
      repeat (destruct H1 as [? H1]); subst;
      repeat eexists; apply IH; eauto 10 ].
Qed.

(** Every program returns, whatever the host answers: [exec] is total and its
    result is a run. *)
Lemma exec_runs {state R : Type} (h : host state) (p : prog R) (s : state) :
  runs p (exec h p s).1.1 (exec h p s).1.2.
Proof.
  revert s; induction p as [x|t k IH|q k IH|t b k IH|t i k IH|txt k IH|c k IH|c d k IH|d k IH];
    intros s; cbn [exec runs]; [auto|..].
  all: repeat lazymatch goal with
         | |- context [let '(_, _) := ?x in _] => destruct x as [? ?] eqn:?
         end.
  all: repeat eexists.
  all: lazymatch goal with
       | E : exec _ (_ ?a) ?s' = _ |- _ =>
           pose proof (IH a s') as X; rewrite E in X; exact X
       | E : exec _ _ ?s' = _ |- _ =>
           pose proof (IH s') as X; rewrite E in X; exact X
       end.
Qed.

(** Conversely every run is the execution against some host: the one that
    replays the trace. *)
Lemma runs_exec {R : Type} (p : prog R) tr r rest :
  runs p tr r -> exec replay_host p (tr ++ rest) = (tr, r, rest).
Proof.
  revert tr; induction p as [x|t k IH|q k IH|t b k IH|t i k IH|txt k IH|c k IH|c d k IH|d k IH];
    intros tr; cbn [runs exec].
  { intros [-> ->]. reflexivity. }
  all: intros H; repeat (destruct H as [? H]); subst; cbn;
    erewrite IH by eassumption; reflexivity.
Qed.

(** One step of a run of a concrete program: expose the next call. *)
Ltac run_step H :=
  cbn [runs bind await chrome_tabs_get chrome_tabs_query chrome_tabs_update
       chrome_tabs_move chrome_action_setBadgeText
       chrome_action_setBadgeBackgroundColor getPinnedTabCount flashBadge] in H;
  lazymatch type of H with
  | _ = [] /\ _ = _ => destruct H as [-> ->]
  | exists a tr', _ = _ :: tr' /\ _ =>
      let a := fresh "a" in
      let tr := fresh "tr" in
      let E := fresh "E" in
      destruct H as (a & tr & E & H); simplify_eq
  | exists tr', _ = _ :: tr' /\ _ =>
      let tr := fresh "tr" in
      let E := fresh "E" in
      destruct H as (tr & E & H); simplify_eq
  end.

(** A step whose call the host accepts ([Hok]: no call of the run was
    rejected). *)
Ltac run_ok H Hok :=
  run_step H;
  cbn [all_resolved forallb rejection andb] in Hok;
  try lazymatch type of Hok with
    | context [match ?a with Resolved _ => _ | Rejected _ => _ end] =>
        let x := fresh "x" in
        destruct a as [x|?]; cbn [andb] in Hok;
        [try (lazymatch type of x with unit => destruct x end)
        |discriminate Hok]
    end.

(** All the runs of a concrete program, one goal per branch. *)
Ltac run_cases H :=
  repeat first
    [ run_step H
    | match type of H with
      | context [match ?a with Resolved _ => _ | Rejected _ => _ end] =>
          is_var a; destruct a
      | context [match ?o with Some _ => _ | None => _ end] =>
          is_var o; destruct o
      | context [if ?b then _ else _] => destruct b eqn:?
      end ].

(** Check that a concrete trace is a run. *)
Ltac run_witness := repeat (cbn; econstructor).

(** ** The zone classifier *)

(** C1. An unpinned tab is classified [Pin index] exactly when no tab is pinned
    and it sits at index 0, or some tab is pinned and it sits at index
    [pinnedCount]; every other unpinned position is [NoAction].  The two
    boundary scenarios of the specification are instances. *)
Theorem classify_unpinned (index pinnedCount : Z) :
  (classify index false pinnedCount = Pin index <->
     (pinnedCount = 0 /\ index = 0) \/ (pinnedCount > 0 /\ index = pinnedCount))
  /\ (classify index false pinnedCount = Pin index
      \/ classify index false pinnedCount = NoAction)
  /\ classify 0 false 0 = Pin 0
  /\ classify 3 false 3 = Pin 3.
Proof.
  unfold classify; cbn [negb andb].
  repeat split; try reflexivity.
  - destruct (pinnedCount =? 0) eqn:E0, (index =? 0) eqn:E1,
      (pinnedCount >? 0) eqn:E2, (index =? pinnedCount) eqn:E3; cbn; intros H;
      try discriminate H; lia.
  - intros [[-> ->] | [Hpos ->]].
    + reflexivity.
    + rewrite Z.eqb_refl.
      assert ((pinnedCount >? 0) = true) as -> by lia.
      now rewrite orb_true_r.
  - destruct ((pinnedCount =? 0) && (index =? 0) || (pinnedCount >? 0) && (index =? pinnedCount));
      [now left | now right].
Qed.

(** C2. A pinned tab is classified [Unpin index] exactly when at least one tab
    is pinned and its index is at least [max 0 (pinnedCount - 2)], and
    [NoAction] otherwise. *)
Theorem classify_pinned (index pinnedCount : Z) :
  (classify index true pinnedCount = Unpin index <->
     pinnedCount >= 1 /\ index >= Z.max 0 (pinnedCount - 2))
  /\ (classify index true pinnedCount = Unpin index
      \/ classify index true pinnedCount = NoAction)
  /\ classify 2 true 3 = Unpin 2
  /\ classify 0 true 3 = NoAction.
Proof.
  unfold classify; cbn [negb andb].
  repeat split; try reflexivity.
  - destruct (pinnedCount >=? 1) eqn:E0; [|discriminate].
    destruct (index >=? Z.max 0 (pinnedCount - 2)) eqn:E1; [|discriminate]. lia.
  - destruct (pinnedCount >=? 1) eqn:E0; [|discriminate].
    destruct (index >=? Z.max 0 (pinnedCount - 2)) eqn:E1; [|discriminate]. lia.
  - intros [H1 H2].
    assert ((pinnedCount >=? 1) = true) as -> by lia.
    assert ((index >=? Z.max 0 (pinnedCount - 2)) = true) as -> by lia.
    reflexivity.
  - destruct (pinnedCount >=? 1); [|now right].
    destruct (index >=? Z.max 0 (pinnedCount - 2)); [now left | now right].
Qed.

(** The target of a decision is the index of the tab. *)
Lemma classify_target index pinned pinnedCount i :
  classify index pinned pinnedCount = Pin i
  \/ classify index pinned pinnedCount = Unpin i ->
  i = index.
Proof.
  unfold classify.
  destruct (if negb pinned then _ else false).
  - intros [[= <-]|[=]]. reflexivity.
  - destruct (pinned && (pinnedCount >=? 1)).
    + destruct (index >=? Z.max 0 (pinnedCount - 2)).
      * intros [[=]|[= <-]]. reflexivity.
      * intros [[=]|[=]].
    + intros [[=]|[=]].
Qed.

(** [processFinalPosition] acts on this decision: once the tab and the pinned
    tabs of its window have been read, what follows is the run of
    [executeWithRetry] the decision asks for, with the index of the tab as
    target, or nothing. *)
Lemma processFinalPosition_dispatch tabId tab tabs tr u :
  runs (processFinalPosition tabId)
    (EvTabsGet tabId (Resolved tab)
     :: EvTabsQuery (PinnedInWindow (Tab.windowId tab)) (Resolved tabs) :: tr) u ->
  match classify (Tab.index tab) (Tab.pinned tab) (Z.of_nat (length tabs)) with
  | Pin i =>
      i = Tab.index tab
      /\ exists b, runs (executeWithRetry tabId "pin" (Some i) DEFAULT_MAX_RETRIES) tr b
  | Unpin i =>
      i = Tab.index tab
      /\ exists b, runs (executeWithRetry tabId "unpin" (Some i) DEFAULT_MAX_RETRIES) tr b
  | NoAction => tr = []
  end.
Proof.
  intros H. unfold processFinalPosition in H. run_step H. run_step H.
  cbn [bind await] in H.
  pose proof (classify_target (Tab.index tab) (Tab.pinned tab)
                (Z.of_nat (length tabs))) as Htarget.
  destruct (classify (Tab.index tab) (Tab.pinned tab) (Z.of_nat (length tabs)))
    as [i|i|].
  - split; [apply Htarget; now left|].
    apply runs_bind in H as (tr1 & a & tr2 & -> & H1 & [-> ->]).
    apply runs_bind in H1 as (tr3 & b & tr4 & -> & H3 & [-> _]).
    exists b. now rewrite !app_nil_r.
  - split; [apply Htarget; now right|].
    apply runs_bind in H as (tr1 & a & tr2 & -> & H1 & [-> ->]).
    apply runs_bind in H1 as (tr3 & b & tr4 & -> & H3 & [-> _]).
    exists b. now rewrite !app_nil_r.
  - now destruct H as [-> _].
Qed.

(** A pass, computed: tab 7 rests unpinned at index 3 in a window with three
    pinned tabs, and is pinned and moved to index 2. *)
Example sample_pass :
  (exec (steady_host (tab7 3 false) three_pinned) (processFinalPosition 7) tt).1.1
  = [ EvTabsGet 7 (Resolved (tab7 3 false));
      EvTabsQuery (PinnedInWindow 1) (Resolved three_pinned) ]
    ++ pin_trace 7 (Some 3) (tab7 3 false) three_pinned.
Proof. reflexivity. Qed.

(** A pass that leaves the tab alone: pinned at index 0 of three. *)
Example sample_pass_no_action :
  (exec (steady_host (tab7 0 true) three_pinned) (processFinalPosition 7) tt).1.1
  = [ EvTabsGet 7 (Resolved (tab7 0 true));
      EvTabsQuery (PinnedInWindow 1) (Resolved three_pinned) ].
Proof. reflexivity. Qed.

(** A pass for a tab that was closed in the meantime: the error is
    swallowed. *)
Example sample_pass_closed :
  exec (failing_host GONE) (processFinalPosition 7) tt
  = ([EvTabsGet 7 (Rejected GONE)], tt, tt).
Proof. reflexivity. Qed.

(** ** One attempt *)

(** The shape of every run of the [try] block: it opens with the only
    [chrome.tabs.get], it never waits, it returns [true] when no call is
    rejected, and it throws the message of the rejected call, which is then
    the last call it made. *)
Lemma attempt_shape tabId action targetIndex tr res :
  runs (attempt tabId action targetIndex) tr res ->
  (exists a tr', tr = EvTabsGet tabId a :: tr'
                 /\ forallb (fun e => negb (opens_attempt e)) tr' = true)
  /\ waits tr = []
  /\ match res with
     | Resolved b => b = true /\ first_rejection tr = None
     | Rejected m => first_rejection tr = Some (m, [])
     end.
Proof.
  intros H. unfold attempt in H.
  run_cases H; (split; [eexists _, _; split; [reflexivity|reflexivity]|]);
    split; try reflexivity; split; reflexivity.
Qed.

Lemma retry_step tabId action targetIndex remaining attempt_no tr r :
  runs (retry tabId action targetIndex (S remaining) attempt_no) tr r <->
  exists tr1 res,
    runs (attempt tabId action targetIndex) tr1 res
    /\ match res with
       | Resolved b => tr = tr1 /\ r = b
       | Rejected m =>
           if includes m DRAG_LOCK
           then exists tr2,
               tr = tr1 ++ EvSleep (backoff_delay attempt_no) :: tr2
               /\ runs (retry tabId action targetIndex remaining (S attempt_no)) tr2 r
           else tr = tr1 /\ r = false
       end.
Proof.
  cbn [retry]. rewrite runs_bind. split.
  - intros (tr1 & res & tr2 & -> & H1 & H2). exists tr1, res. split; [exact H1|].
    destruct res as [b|m].
    + destruct H2 as [-> ->]. now rewrite app_nil_r.
    + destruct (includes m DRAG_LOCK).
      * destruct H2 as (tr' & -> & H2). eauto.
      * destruct H2 as [-> ->]. now rewrite app_nil_r.
  - intros (tr1 & res & H1 & H2). destruct res as [b|m].
    + destruct H2 as [-> ->]. exists tr1, (Resolved b), []. cbn.
      now rewrite app_nil_r.
    + destruct (includes m DRAG_LOCK) eqn:E.
      * destruct H2 as (tr2 & -> & H2).
        exists tr1, (Rejected m), (EvSleep (backoff_delay attempt_no) :: tr2).
        rewrite E. cbn. eauto.
      * destruct H2 as [-> ->]. exists tr1, (Rejected m), [].
        rewrite E. cbn. now rewrite app_nil_r.
Qed.

(** A run of the loop is empty (no attempt left) or opens with the
    [chrome.tabs.get] of its first attempt. *)
Lemma retry_head tabId action targetIndex remaining attempt_no tr r :
  runs (retry tabId action targetIndex remaining attempt_no) tr r ->
  match remaining with
  | O => tr = [] /\ r = false
  | S _ => exists a tr', tr = EvTabsGet tabId a :: tr'
  end.
Proof.
  destruct remaining as [|n]; [intros H; exact H|].
  intros (tr1 & res & H1 & H2)%retry_step.
  apply attempt_shape in H1 as ((a & tr' & -> & _) & _).
  destruct res as [b|m].
  - destruct H2 as [-> _]. eauto.
  - destruct (includes m DRAG_LOCK).
    + destruct H2 as (tr2 & -> & _). cbn. eauto.
    + destruct H2 as [-> _]. eauto.
Qed.

Lemma first_rejection_app_None tr rest :
  first_rejection tr = None ->
  first_rejection (tr ++ rest) = first_rejection rest.
Proof.
  induction tr as [|e tr IH]; cbn; [done|].
  destruct (rejection e); [discriminate|exact IH].
Qed.

Lemma first_rejection_app_Some tr rest m post :
  first_rejection tr = Some (m, post) ->
  first_rejection (tr ++ rest) = Some (m, post ++ rest).
Proof.
  induction tr as [|e tr IH]; cbn; [discriminate|].
  destruct (rejection e); [|exact IH].
  intros [= -> ->]. reflexivity.
Qed.

Lemma all_resolved_first_rejection tr :
  all_resolved tr = true <-> first_rejection tr = None.
Proof.
  induction tr as [|e tr IH]; cbn; [done|].
  destruct (rejection e); cbn; [split; discriminate|exact IH].
Qed.

Lemma first_rejection_split pre e post m :
  all_resolved pre = true -> rejection e = Some m ->
  first_rejection (pre ++ e :: post) = Some (m, post).
Proof.
  intros Hpre He. rewrite first_rejection_app_None.
  - cbn. now rewrite He.
  - now apply all_resolved_first_rejection.
Qed.

(** ** The runs of the retry executor *)

(** In the statements below [retry tabId action targetIndex (S remaining)
    attempt_no] is [executeWithRetry] at the start of loop iteration
    [attempt_no], with [maxRetries = attempt_no + S remaining];
    [executeWithRetry] itself is the case [attempt_no = 0]. *)

Lemma executeWithRetry_unfold tabId action targetIndex maxRetries :
  executeWithRetry tabId action targetIndex maxRetries
  = retry tabId action targetIndex maxRetries 0.
Proof. reflexivity. Qed.

Lemma unpin_run tabId targetIndex remaining attempt_no tab tr r :
  runs (retry tabId "unpin" targetIndex (S remaining) attempt_no) tr r ->
  head tr = Some (EvTabsGet tabId (Resolved tab)) ->
  Tab.pinned tab = true ->
  all_resolved tr = true ->
  exists tabs, tr = unpin_trace tabId targetIndex tab tabs /\ r = true.
Proof.
  intros H Hhd Hpin Hok.
  cbn [retry] in H. unfold attempt in H.
  run_step H. cbn in Hhd. simplify_eq.
  cbn [String.eqb Ascii.eqb Bool.eqb andb negb] in H.
  rewrite Hpin in H. cbn [andb] in H.
  cbn [all_resolved forallb rejection andb] in Hok.
  run_ok H Hok. run_ok H Hok.
  destruct targetIndex as [target|].
  - run_ok H Hok. run_ok H Hok. run_ok H Hok. run_ok H Hok. run_step H.
    eexists. split; reflexivity.
  - run_ok H Hok. run_ok H Hok. run_ok H Hok. run_step H.
    eexists. split; reflexivity.
Qed.

Lemma pin_run tabId targetIndex remaining attempt_no tab tr r :
  runs (retry tabId "pin" targetIndex (S remaining) attempt_no) tr r ->
  head tr = Some (EvTabsGet tabId (Resolved tab)) ->
  Tab.pinned tab = false ->
  all_resolved tr = true ->
  exists tabs, tr = pin_trace tabId targetIndex tab tabs /\ r = true.
Proof.
  intros H Hhd Hpin Hok.
  cbn [retry] in H. unfold attempt in H.
  run_step H. cbn in Hhd. simplify_eq.
  cbn [String.eqb Ascii.eqb Bool.eqb andb negb] in H.
  rewrite Hpin in H. cbn [andb negb] in H.
  cbn [all_resolved forallb rejection andb] in Hok.
  run_ok H Hok.
  destruct targetIndex as [target|].
  - run_ok H Hok. run_ok H Hok. run_ok H Hok. run_ok H Hok. run_step H.
    run_step H. eexists. split; reflexivity.
  - run_ok H Hok. run_ok H Hok. run_ok H Hok. run_step H. run_step H.
    exists []. split; reflexivity.
Qed.

Lemma desired_state_run tabId action targetIndex remaining attempt_no tab tr r :
  runs (retry tabId action targetIndex (S remaining) attempt_no) tr r ->
  head tr = Some (EvTabsGet tabId (Resolved tab)) ->
  (action = "pin"%string /\ Tab.pinned tab = true)
  \/ (action = "unpin"%string /\ Tab.pinned tab = false) ->
  tr = [EvTabsGet tabId (Resolved tab)] /\ r = true.
Proof.
  intros H Hhd Hstate.
  cbn [retry] in H. unfold attempt in H.
  run_step H. cbn in Hhd. simplify_eq.
  destruct Hstate as [[-> Hpin] | [-> Hpin]]; rewrite Hpin in H;
    cbn [String.eqb Ascii.eqb Bool.eqb andb negb] in H; run_step H; done.
Qed.

Lemma toggle_run tr r :
  runs togglePinActiveTab tr r ->
  head tr = Some (EvTabsQuery ActiveInCurrentWindow (Resolved [])) ->
  tr = [EvTabsQuery ActiveInCurrentWindow (Resolved [])] /\ r = Resolved tt.
Proof.
  intros H Hhd. unfold togglePinActiveTab in H.
  run_step H. cbn in Hhd. simplify_eq. run_step H. done.
Qed.

(** What follows the first rejected call of a run. *)
Lemma first_error_run
  tabId action targetIndex remaining attempt_no tr r pre e post message :
  runs (retry tabId action targetIndex (S remaining) attempt_no) tr r ->
  tr = pre ++ e :: post ->
  all_resolved pre = true ->
  rejection e = Some message ->
  if includes message DRAG_LOCK
  then exists post',
      post = EvSleep (backoff_delay attempt_no) :: post'
      /\ runs (retry tabId action targetIndex remaining (S attempt_no)) post' r
  else post = [] /\ r = false.
Proof.
  intros (tr1 & res & H1 & H2)%retry_step -> Hpre He.
  pose proof (first_rejection_split pre e post message Hpre He) as Hfirst.
  apply attempt_shape in H1 as (_ & _ & Hres).
  destruct res as [b|m].
  - destruct H2 as [E _], Hres as [_ Hnone].
    rewrite E, Hnone in Hfirst. discriminate.
  - destruct (includes m DRAG_LOCK) eqn:Hlock.
    + destruct H2 as (tr2 & E & H2).
      rewrite E, (first_rejection_app_Some _ _ _ _ Hres) in Hfirst.
      cbn in Hfirst. injection Hfirst as <- <-.
      rewrite Hlock. eauto.
    + destruct H2 as [E ->].
      rewrite E, Hres in Hfirst. injection Hfirst as <- <-.
      rewrite Hlock. auto.
Qed.

(** *** Exhausting the retries *)

Lemma attempts_of_piece e l rest :
  forallb (fun e => negb (opens_attempt e)) l = true ->
  match rest with [] => True | e' :: _ => opens_attempt e' = true end ->
  attempts_of (e :: l ++ rest) = (e :: l) :: attempts_of rest.
Proof.
  revert e; induction l as [|e' l IH]; intros e Hl Hrest.
  - cbn [app]. destruct rest as [|e' rest]; [reflexivity|].
    cbn [attempts_of]. now rewrite Hrest.
  - cbn [forallb] in Hl. apply andb_true_iff in Hl as [He' Hl].
    specialize (IH e' Hl Hrest).
    change (attempts_of (e :: (e' :: l) ++ rest))
      with (if opens_attempt e' then [e] :: attempts_of (e' :: l ++ rest)
            else match attempts_of (e' :: l ++ rest) with
                 | piece :: pieces => (e :: piece) :: pieces
                 | [] => [[e]]
                 end).
    rewrite IH. now destruct (opens_attempt e').
Qed.

Lemma raises_drag_lock_first tr m :
  first_rejection tr = Some (m, []) ->
  existsb raises_drag_lock tr = includes m DRAG_LOCK.
Proof.
  induction tr as [|e tr IH]; cbn; [discriminate|].
  unfold raises_drag_lock at 1. destruct (rejection e) as [m'|].
  - intros [= -> ->]. cbn. apply orb_false_r.
  - intros H. cbn. exact (IH H).
Qed.

Lemma raises_drag_lock_none tr :
  first_rejection tr = None -> existsb raises_drag_lock tr = false.
Proof.
  induction tr as [|e tr IH]; cbn; [done|].
  unfold raises_drag_lock at 1. destruct (rejection e); [discriminate|].
  intros H. cbn. exact (IH H).
Qed.

Lemma waits_app tr1 tr2 : waits (tr1 ++ tr2) = waits tr1 ++ waits tr2.
Proof.
  induction tr1 as [|e tr1 IH]; [reflexivity|].
  destruct e; cbn; rewrite ?IH; reflexivity.
Qed.

(** The loop, from any iteration on, when every attempt raises the drag-lock
    error. *)
Lemma all_locked_run tabId action targetIndex remaining :
  forall attempt_no tr r,
    runs (retry tabId action targetIndex remaining attempt_no) tr r ->
    every_attempt_locked tr ->
    r = false
    /\ length (attempts_of tr) = remaining
    /\ waits tr = map backoff_delay (seq attempt_no remaining).
Proof.
  unfold every_attempt_locked.
  induction remaining as [|n IH]; intros attempt_no tr r H Hall.
  - destruct H as [-> ->]. done.
  - apply retry_step in H as (tr1 & res & H1 & H2).
    apply attempt_shape in H1 as ((a & tr' & -> & Hno) & Hwait & Hres).
    destruct res as [b|m].
    + destruct H2 as [-> _], Hres as [_ Hnone].
      rewrite <- (app_nil_r tr') in Hall.
      rewrite (attempts_of_piece _ _ [] Hno I) in Hall.
      apply Forall_cons in Hall as [Hpiece _].
      rewrite (raises_drag_lock_none _ Hnone) in Hpiece. discriminate.
    + destruct (includes m DRAG_LOCK) eqn:Hlock.
      * destruct H2 as (tr2 & -> & H2).
        pose proof (retry_head _ _ _ _ _ _ _ H2) as Hhead.
        assert (attempts_of ((EvTabsGet tabId a :: tr')
                             ++ EvSleep (backoff_delay attempt_no) :: tr2)
                = (EvTabsGet tabId a :: tr' ++ [EvSleep (backoff_delay attempt_no)])
                  :: attempts_of tr2) as Hcut.
        { replace ((EvTabsGet tabId a :: tr')
                   ++ EvSleep (backoff_delay attempt_no) :: tr2)
            with (EvTabsGet tabId a
                  :: (tr' ++ [EvSleep (backoff_delay attempt_no)]) ++ tr2)
            by (cbn; now rewrite <- app_assoc).
          apply attempts_of_piece.
          - rewrite forallb_app, Hno. reflexivity.
          - destruct n; [destruct Hhead as [-> _]; exact I|].
            destruct Hhead as (? & ? & ->). reflexivity. }
        rewrite Hcut in Hall |- *.
        apply Forall_cons in Hall as [_ Hall].
        destruct (IH _ _ _ H2 Hall) as (-> & Hlen & Hw).
        split; [reflexivity|]. split; [cbn; now rewrite Hlen|].
        rewrite waits_app, Hwait. cbn. now rewrite Hw.
      * destruct H2 as [-> _].
        rewrite <- (app_nil_r tr') in Hall.
        rewrite (attempts_of_piece _ _ [] Hno I) in Hall.
        apply Forall_cons in Hall as [Hpiece _].
        rewrite (raises_drag_lock_first _ _ Hres), Hlock in Hpiece. discriminate.
Qed.

(** With the default of 15 retries the waits add up to 18925.78125. *)
Lemma default_total_backoff :
  (Qsum (map backoff_delay (seq 0 DEFAULT_MAX_RETRIES)) == 605625 # 32)%Q.
Proof. vm_compute. reflexivity. Qed.

(** ** The retry executor against a host *)

(** The statements quantify over every host and every state it may be in:
    [exec] is a total function, so each of them says what the executor
    returns, and which calls it has made by then. *)

Lemma exec_run {state R : Type} (h : host state) (p : prog R) s tr r s' :
  exec h p s = (tr, r, s') -> runs p tr r.
Proof. intros E. pose proof (exec_runs h p s) as H. now rewrite E in H. Qed.

(** C3. Unpin on a tab that [chrome.tabs.get] reports pinned, when the host
    accepts the calls: the pinned count is read first, then the tab is
    unpinned, then (only when a target index was supplied) it is moved to
    [max (pinnedCount_before - 1) targetIndex]; the orange badge is flashed
    and the result is [true]. *)
Theorem unpin_execution {state : Type} (h : host state) (s s' : state)
  tabId targetIndex remaining attempt_no tab tr r :
  exec h (retry tabId "unpin" targetIndex (S remaining) attempt_no) s
  = (tr, r, s') ->
  head tr = Some (EvTabsGet tabId (Resolved tab)) ->
  Tab.pinned tab = true ->
  all_resolved tr = true ->
  exists tabs,
    let pinnedCount_before := Z.of_nat (length tabs) in
    tr = [ EvTabsGet tabId (Resolved tab);
           EvTabsQuery (PinnedInWindow (Tab.windowId tab)) (Resolved tabs);
           EvTabsUpdate tabId false (Resolved tt) ]
         ++ match targetIndex with
            | Some target =>
                [ EvTabsMove tabId (Z.max (pinnedCount_before - 1) target)
                    (Resolved tt) ]
            | None => []
            end
         ++ negative_feedback
    /\ r = true.
Proof.
  intros E Hhd Hpin Hok.
  exact (unpin_run _ _ _ _ _ _ _ (exec_run _ _ _ _ _ _ E) Hhd Hpin Hok).
Qed.

(** Tab 7, the last of three pinned tabs, is dropped at index 2. *)
Lemma unpin_execution_witness :
  exists tabs,
    (exec (steady_host (tab7 2 true) three_pinned)
       (executeWithRetry 7 "unpin" (Some 2) DEFAULT_MAX_RETRIES) tt).1.1
    = [ EvTabsGet 7 (Resolved (tab7 2 true));
        EvTabsQuery (PinnedInWindow 1) (Resolved tabs);
        EvTabsUpdate 7 false (Resolved tt) ]
      ++ [ EvTabsMove 7 (Z.max (Z.of_nat (length tabs) - 1) 2) (Resolved tt) ]
      ++ negative_feedback
    /\ true = true.
Proof.
  exact (unpin_execution (steady_host (tab7 2 true) three_pinned) tt tt
           7 (Some 2) 14 0 (tab7 2 true) _ true
           eq_refl eq_refl eq_refl eq_refl).
Defined.

(** C4. Pin on a tab that [chrome.tabs.get] reports unpinned, when the host
    accepts the calls: the tab is pinned, then moved to
    [min targetIndex (pinnedCount_after - 1)], the count being read after the
    pinning, or to 0 when no target index was supplied; the green badge is
    flashed and the result is [true]. *)
Theorem pin_execution {state : Type} (h : host state) (s s' : state)
  tabId targetIndex remaining attempt_no tab tr r :
  exec h (retry tabId "pin" targetIndex (S remaining) attempt_no) s
  = (tr, r, s') ->
  head tr = Some (EvTabsGet tabId (Resolved tab)) ->
  Tab.pinned tab = false ->
  all_resolved tr = true ->
  exists tabs,
    let pinnedCount_after := Z.of_nat (length tabs) in
    tr = [ EvTabsGet tabId (Resolved tab);
           EvTabsUpdate tabId true (Resolved tt) ]
         ++ match targetIndex with
            | Some target =>
                [ EvTabsQuery (PinnedInWindow (Tab.windowId tab)) (Resolved tabs);
                  EvTabsMove tabId (Z.min target (pinnedCount_after - 1))
                    (Resolved tt) ]
            | None => [ EvTabsMove tabId 0 (Resolved tt) ]
            end
         ++ positive_feedback
    /\ r = true.
Proof.
  intros E Hhd Hpin Hok.
  exact (pin_run _ _ _ _ _ _ _ (exec_run _ _ _ _ _ _ E) Hhd Hpin Hok).
Qed.

(** Tab 7, unpinned, is dropped at index 5; the window then counts three
    pinned tabs, so that it goes to index 2. *)
Lemma pin_execution_witness :
  exists tabs,
    (exec (steady_host (tab7 5 false) three_pinned)
       (executeWithRetry 7 "pin" (Some 5) DEFAULT_MAX_RETRIES) tt).1.1
    = [ EvTabsGet 7 (Resolved (tab7 5 false));
        EvTabsUpdate 7 true (Resolved tt) ]
      ++ [ EvTabsQuery (PinnedInWindow 1) (Resolved tabs);
           EvTabsMove 7 (Z.min 5 (Z.of_nat (length tabs) - 1)) (Resolved tt) ]
      ++ positive_feedback
    /\ true = true.
Proof.
  exact (pin_execution (steady_host (tab7 5 false) three_pinned) tt tt
           7 (Some 5) 14 0 (tab7 5 false) _ true
           eq_refl eq_refl eq_refl eq_refl).
Defined.

(** C7. When [chrome.tabs.get] reports the tab already in the state the
    action asks for, the executor returns [true] after that single call: no
    update, no move, no badge. *)
Theorem already_in_desired_state {state : Type} (h : host state) (s s' : state)
  tabId action targetIndex remaining attempt_no tab tr r :
  exec h (retry tabId action targetIndex (S remaining) attempt_no) s
  = (tr, r, s') ->
  head tr = Some (EvTabsGet tabId (Resolved tab)) ->
  (action = "pin"%string /\ Tab.pinned tab = true)
  \/ (action = "unpin"%string /\ Tab.pinned tab = false) ->
  tr = [EvTabsGet tabId (Resolved tab)]
  /\ r = true
  /\ filter (fun e => mutates e = true) tr = [].
Proof.
  intros E Hhd Hstate.
  destruct (desired_state_run _ _ _ _ _ _ _ _ (exec_run _ _ _ _ _ _ E) Hhd Hstate)
    as [-> ->].
  done.
Qed.

Lemma already_in_desired_state_witness :
  (exec (steady_host (tab7 0 true) three_pinned)
     (executeWithRetry 7 "pin" (Some 0) DEFAULT_MAX_RETRIES) tt).1.1
  = [EvTabsGet 7 (Resolved (tab7 0 true))]
  /\ true = true
  /\ filter (fun e => mutates e = true)
       (exec (steady_host (tab7 0 true) three_pinned)
          (executeWithRetry 7 "pin" (Some 0) DEFAULT_MAX_RETRIES) tt).1.1
     = [].
Proof.
  exact (already_in_desired_state (steady_host (tab7 0 true) three_pinned) tt tt
           7 "pin" (Some 0) 14 0 (tab7 0 true) _ true
           eq_refl eq_refl (or_introl (conj eq_refl eq_refl))).
Defined.

(** C10. When the query for the active tab answers the empty list,
    [togglePinActiveTab] returns after that single call: no update, no move,
    no badge. *)
Theorem toggle_without_active_tab {state : Type} (h : host state) (s s' : state) tr r :
  exec h togglePinActiveTab s = (tr, r, s') ->
  head tr = Some (EvTabsQuery ActiveInCurrentWindow (Resolved [])) ->
  tr = [EvTabsQuery ActiveInCurrentWindow (Resolved [])]
  /\ r = Resolved tt
  /\ filter (fun e => mutates e = true) tr = [].
Proof.
  intros E Hhd.
  destruct (toggle_run _ _ (exec_run _ _ _ _ _ _ E) Hhd) as [-> ->].
  done.
Qed.

Lemma toggle_without_active_tab_witness :
  (exec (steady_host (tab7 0 true) []) togglePinActiveTab tt).1.1
  = [EvTabsQuery ActiveInCurrentWindow (Resolved [])]
  /\ Resolved tt = Resolved tt
  /\ filter (fun e => mutates e = true)
       (exec (steady_host (tab7 0 true) []) togglePinActiveTab tt).1.1
     = [].
Proof.
  exact (toggle_without_active_tab (steady_host (tab7 0 true) []) tt tt
           _ (Resolved tt) eq_refl eq_refl).
Defined.

(** C6. The first rejected call of the executor decides what follows it.  If
    its message is the drag-lock message, the next event is the wait of
    [min (100 * 1.5^attempt_no) 2000] and the loop goes on with iteration
    [attempt_no + 1]: another attempt opens while attempts remain, and
    failure is returned once [maxRetries] is reached.  With any other message
    the executor returns [false] at once: the rejected call is the last call
    it makes. *)
Theorem error_handling {state : Type} (h : host state) (s s' : state)
  tabId action targetIndex remaining attempt_no tr r pre e post message :
  exec h (retry tabId action targetIndex (S remaining) attempt_no) s
  = (tr, r, s') ->
  tr = pre ++ e :: post ->
  all_resolved pre = true ->
  rejection e = Some message ->
  (includes message DRAG_LOCK = true ->
     exists post',
       post = EvSleep (Qmin (100 * (3 # 2) ^ Z.of_nat attempt_no) 2000) :: post'
       /\ runs (retry tabId action targetIndex remaining (S attempt_no)) post' r
       /\ match remaining with
          | O => post' = [] /\ r = false
          | S _ => exists a post'', post' = EvTabsGet tabId a :: post''
          end)
  /\ (includes message DRAG_LOCK = false -> post = [] /\ r = false).
Proof.
  intros E Htr Hpre He.
  pose proof (first_error_run _ _ _ _ _ _ _ _ _ _ _
                (exec_run _ _ _ _ _ _ E) Htr Hpre He) as H.
  destruct (includes message DRAG_LOCK).
  - split; [|discriminate]. intros _.
    destruct H as (post' & -> & H). exists post'.
    split; [reflexivity|]. split; [exact H|].
    exact (retry_head _ _ _ _ _ _ _ H).
  - split; [discriminate|]. intros _. exact H.
Qed.

(** The user is still dragging at the first attempt, and the second attempt
    finds the tab pinned already; and a tab that is gone. *)
Lemma error_handling_witness :
  (exists post',
      [EvSleep (backoff_delay 0); EvTabsGet 7 (Resolved (tab7 0 true))]
      = EvSleep (Qmin (100 * (3 # 2) ^ Z.of_nat 0) 2000) :: post'
      /\ runs (retry 7 "pin" (Some 0) 1 1) post' true
      /\ exists a post'', post' = EvTabsGet 7 a :: post'')
  /\ (@nil event = [] /\ false = false).
Proof.
  split.
  - exact (proj1 (error_handling (dragging_host 1 (tab7 0 true) three_pinned)
                    1%nat 0%nat 7 "pin" (Some 0) 1 0 _ true
                    [] (EvTabsGet 7 (Rejected LOCKED)) _ LOCKED
                    eq_refl eq_refl eq_refl eq_refl) eq_refl).
  - exact (proj2 (error_handling (failing_host GONE) tt tt
                    7 "pin" (Some 0) 1 0 _ false
                    [] (EvTabsGet 7 (Rejected GONE)) [] GONE
                    eq_refl eq_refl eq_refl eq_refl) eq_refl).
Defined.

(** C5. When every attempt raises the drag-lock error, [executeWithRetry]
    returns [false] after exactly [maxRetries] attempts, and the waits it made
    are [min (100 * 1.5^i) 2000] for [i = 0 .. maxRetries - 1], so that their
    total is the sum of these. *)
Theorem retry_exhaustion {state : Type} (h : host state) (s s' : state)
  tabId action targetIndex maxRetries tr r :
  exec h (executeWithRetry tabId action targetIndex maxRetries) s
  = (tr, r, s') ->
  every_attempt_locked tr ->
  r = false
  /\ length (attempts_of tr) = maxRetries
  /\ waits tr
     = map (fun i => Qmin (100 * (3 # 2) ^ Z.of_nat i) 2000) (seq 0 maxRetries)
  /\ Qsum (waits tr)
     = Qsum (map (fun i => Qmin (100 * (3 # 2) ^ Z.of_nat i) 2000)
               (seq 0 maxRetries)).
Proof.
  intros E Hall.
  destruct (all_locked_run _ _ _ _ _ _ _ (exec_run _ _ _ _ _ _ E) Hall)
    as (Hr & Hlen & Hw).
  split; [exact Hr|]. split; [exact Hlen|]. split; [exact Hw|].
  now rewrite Hw.
Qed.

(** The user never lets go of the tab: the default 15 attempts, and a total
    wait of 18925.78125. *)
Lemma retry_exhaustion_witness :
  let tr := (exec (failing_host LOCKED)
               (executeWithRetry 7 "pin" (Some 3) DEFAULT_MAX_RETRIES) tt).1.1 in
  false = false
  /\ length (attempts_of tr) = 15%nat
  /\ waits tr
     = map (fun i => Qmin (100 * (3 # 2) ^ Z.of_nat i) 2000) (seq 0 15)
  /\ Qsum (waits tr)
     = Qsum (map (fun i => Qmin (100 * (3 # 2) ^ Z.of_nat i) 2000) (seq 0 15)).
Proof.
  apply (retry_exhaustion (failing_host LOCKED) tt tt 7 "pin" (Some 3)
           DEFAULT_MAX_RETRIES _ false eq_refl).
  unfold every_attempt_locked. vm_compute. repeat constructor.
Defined.

(** * Properties of the drag debouncer *)

(** ** The invariant *)

Lemma wf_boot : wf boot.
Proof.
  split; cbn; intros *.
  - intros []%elem_of_nil.
  - intros []%elem_of_nil.
  - intros []%elem_of_nil.
  - rewrite lookup_empty. discriminate.
  - intros []%elem_of_nil.
Qed.

(** Two entries of the map never share a timer. *)
Lemma entries_distinct w tabId tabId' timeoutId :
  wf w ->
  dragDebounce w !! tabId = Some timeoutId ->
  dragDebounce w !! tabId' = Some timeoutId ->
  tabId = tabId'.
Proof.
  intros Hwf H1 H2.
  destruct (wf_pending w Hwf _ _ H1) as [d1 Hd1].
  destruct (wf_pending w Hwf _ _ H2) as [d2 Hd2].
  pose proof (wf_ids w Hwf _ _ Hd1 Hd2 eq_refl). congruence.
Qed.

(** Removing the timer [timeoutId] from the table, together with the entry
    that points to it if there is one. *)
Lemma wf_shrink w timeoutId m now' ps :
  wf w ->
  (forall tabId,
      m !! tabId = dragDebounce w !! tabId
      \/ (m !! tabId = None /\ dragDebounce w !! tabId = Some timeoutId)) ->
  (forall tabId x, m !! tabId = Some x -> x <> timeoutId) ->
  (forall tm, tm ∈ timers w -> timer_id tm <> timeoutId -> now' <= due tm) ->
  wf (World now' (nextTimerId w)
        (filter (fun tm => timer_id tm <> timeoutId) (timers w)) m ps).
Proof.
  intros Hwf Hm Hfree Hnow. split; cbn.
  - intros tm [_ Hin]%list_elem_of_filter. eapply wf_fresh; eauto.
  - intros tm1 tm2 [_ H1]%list_elem_of_filter [_ H2]%list_elem_of_filter.
    eapply wf_ids; eauto.
  - intros tm tabId [Hne Hin]%list_elem_of_filter Hcb.
    pose proof (wf_registered w Hwf _ _ Hin Hcb) as Hreg.
    destruct (Hm tabId) as [->|[_ Hid]]; [exact Hreg|].
    rewrite Hid in Hreg. cbn in Hne. congruence.
  - intros tabId x Hx.
    pose proof (Hfree _ _ Hx) as Hne.
    destruct (Hm tabId) as [E|[E _]]; [|congruence].
    rewrite E in Hx. destruct (wf_pending w Hwf _ _ Hx) as [d Hd].
    exists d. apply list_elem_of_filter. split; [exact Hne|exact Hd].
  - intros tm [Hne Hin]%list_elem_of_filter. apply Hnow; assumption.
Qed.

(** Deleting the entry of [tabId] and clearing its timer. *)
Lemma wf_forget w tabId timeoutId :
  wf w ->
  dragDebounce w !! tabId = Some timeoutId ->
  wf (World (now w) (nextTimerId w)
        (filter (fun tm => timer_id tm <> timeoutId) (timers w))
        (delete tabId (dragDebounce w)) (passes w)).
Proof.
  intros Hwf Hentry. apply wf_shrink; [exact Hwf| | |].
  - intros tabId'. destruct (decide (tabId = tabId')) as [<-|Hne].
    + right. now rewrite lookup_delete_eq.
    + left. now rewrite lookup_delete_ne.
  - intros tabId' x [Hne Hx]%lookup_delete_Some ->.
    apply Hne. eapply entries_distinct; eauto.
  - intros tm Hin _. now apply wf_future.
Qed.

(** Starting the debounce timer of a tab that has no entry. *)
Lemma wf_add_debounce w tabId delay :
  wf w ->
  dragDebounce w !! tabId = None ->
  wf (World (now w) (nextTimerId w + 1)
        (timers w ++ [Timer (nextTimerId w) (now w + Z.max 0 delay)
                        (DebounceFire tabId)])
        (<[tabId := nextTimerId w]> (dragDebounce w)) (passes w)).
Proof.
  intros Hwf Hnone. split; cbn.
  - intros tm [Hin| ->%list_elem_of_singleton]%elem_of_app.
    + pose proof (wf_fresh w Hwf _ Hin). lia.
    + cbn. lia.
  - intros tm1 tm2 [H1| ->%list_elem_of_singleton]%elem_of_app
      [H2| ->%list_elem_of_singleton]%elem_of_app; cbn; intros E.
    + eapply wf_ids; eauto.
    + pose proof (wf_fresh w Hwf _ H1). lia.
    + pose proof (wf_fresh w Hwf _ H2). lia.
    + reflexivity.
  - intros tm tabId' [Hin| ->%list_elem_of_singleton]%elem_of_app Hcb.
    + pose proof (wf_registered w Hwf _ _ Hin Hcb) as Hreg.
      rewrite lookup_insert_ne; [exact Hreg|]. intros <-. congruence.
    + cbn in Hcb. injection Hcb as <-. cbn. apply lookup_insert_eq.
  - intros tabId' x Hx. apply lookup_insert_Some in Hx as [[<- <-]|[Hne Hx]].
    + eexists. apply elem_of_app. right. apply list_elem_of_singleton.
      reflexivity.
    + destruct (wf_pending w Hwf _ _ Hx) as [d Hd].
      exists d. apply elem_of_app. now left.
  - intros tm [Hin| ->%list_elem_of_singleton]%elem_of_app.
    + now apply wf_future.
    + cbn. lia.
Qed.

(** Starting a timer that is not a debounce timer. *)
Lemma wf_add_other w c delay :
  wf w ->
  (forall tabId, c <> DebounceFire tabId) ->
  wf (setTimeout c delay w).2.
Proof.
  intros Hwf Hc. split; cbn.
  - intros tm [Hin| ->%list_elem_of_singleton]%elem_of_app.
    + pose proof (wf_fresh w Hwf _ Hin). lia.
    + cbn. lia.
  - intros tm1 tm2 [H1| ->%list_elem_of_singleton]%elem_of_app
      [H2| ->%list_elem_of_singleton]%elem_of_app; cbn; intros E.
    + eapply wf_ids; eauto.
    + pose proof (wf_fresh w Hwf _ H1). lia.
    + pose proof (wf_fresh w Hwf _ H2). lia.
    + reflexivity.
  - intros tm tabId [Hin| ->%list_elem_of_singleton]%elem_of_app Hcb.
    + exact (wf_registered w Hwf _ _ Hin Hcb).
    + cbn in Hcb. now apply Hc in Hcb.
  - intros tabId x Hx. destruct (wf_pending w Hwf _ _ Hx) as [d Hd].
    exists d. apply elem_of_app. now left.
  - intros tm [Hin| ->%list_elem_of_singleton]%elem_of_app.
    + now apply wf_future.
    + cbn. lia.
Qed.

(** [onMoved] spelled out: the old timer of the tab, if any, is gone and a
    new one, due [DEBOUNCE_DELAY] from now, is recorded. *)
Lemma onMoved_unfold tabId w :
  onMoved tabId w =
  let old := match dragDebounce w !! tabId with
             | Some pending =>
                 filter (fun tm => timer_id tm <> pending) (timers w)
             | None => timers w
             end in
  World (now w) (nextTimerId w + 1)
    (old ++ [Timer (nextTimerId w) (now w + Z.max 0 DEBOUNCE_DELAY)
               (DebounceFire tabId)])
    (<[tabId := nextTimerId w]> (dragDebounce w)) (passes w).
Proof. unfold onMoved. now destruct (dragDebounce w !! tabId). Qed.

Lemma wf_onMoved tabId w : wf w -> wf (onMoved tabId w).
Proof.
  intros Hwf. rewrite onMoved_unfold.
  destruct (dragDebounce w !! tabId) as [pending|] eqn:Hentry; cbn zeta.
  - rewrite <- insert_delete_eq.
    apply (wf_add_debounce _ tabId DEBOUNCE_DELAY (wf_forget w _ _ Hwf Hentry)).
    cbn. apply lookup_delete_eq.
  - exact (wf_add_debounce w tabId DEBOUNCE_DELAY Hwf Hentry).
Qed.

Lemma wf_onRemoved tabId w : wf w -> wf (onRemoved tabId w).
Proof.
  intros Hwf. unfold onRemoved.
  destruct (dragDebounce w !! tabId) as [pending|] eqn:Hentry; [|exact Hwf].
  exact (wf_forget w _ _ Hwf Hentry).
Qed.

Lemma wf_handle i w : wf w -> wf (handle i w).
Proof.
  intros Hwf. destruct i; cbn [handle].
  - now apply wf_onMoved.
  - now apply wf_onRemoved.
  - now apply wf_add_other.
  - now apply wf_add_other.
Qed.

(** ** The event loop *)

Lemma earliest_spec l tm :
  earliest l = Some tm ->
  tm ∈ l /\ forall tm', tm' ∈ l -> due tm <= due tm'.
Proof.
  revert tm; induction l as [|x l IH]; intros tm; cbn [earliest]; [discriminate|].
  destruct (earliest l) as [y|] eqn:E.
  - destruct (IH y eq_refl) as [Hy Hmin].
    destruct (due y <? due x) eqn:Hlt; intros [= <-].
    + split; [now right|].
      intros tm' [->|Hin]%elem_of_cons; [lia|now apply Hmin].
    + split; [now left|].
      intros tm' [->|Hin]%elem_of_cons; [lia|].
      specialize (Hmin _ Hin). lia.
  - intros [= <-]. split; [now left|].
    intros tm' [->|Hin]%elem_of_cons; [lia|].
    destruct l; [now apply elem_of_nil in Hin|].
    cbn in E. destruct (earliest l); [destruct (_ <? _)|]; discriminate.
Qed.

Lemma earliest_None l : earliest l = None -> l = [].
Proof.
  destruct l as [|x l]; [reflexivity|]. cbn.
  destruct (earliest l); [destruct (_ <? _)|]; discriminate.
Qed.

Lemma next_due_spec t w tm :
  next_due t w = Some tm ->
  tm ∈ timers w /\ due tm <= t /\ forall tm', tm' ∈ timers w -> due tm <= due tm'.
Proof.
  unfold next_due. destruct (earliest (timers w)) as [x|] eqn:E; [|discriminate].
  destruct (due x <=? t) eqn:Hle; intros [= <-].
  destruct (earliest_spec _ _ E) as [Hin Hmin].
  split; [exact Hin|]. split; [lia|exact Hmin].
Qed.

Lemma next_due_None t w tm :
  next_due t w = None -> tm ∈ timers w -> t < due tm.
Proof.
  unfold next_due. destruct (earliest (timers w)) as [x|] eqn:E.
  - destruct (due x <=? t) eqn:Hle; [discriminate|]. intros _ Hin.
    destruct (earliest_spec _ _ E) as [_ Hmin]. specialize (Hmin _ Hin). lia.
  - intros _ Hin. apply earliest_None in E. rewrite E in Hin.
    now apply elem_of_nil in Hin.
Qed.

(** Firing the timer that is due first keeps the invariant. *)
Lemma wf_fire_timer w tm :
  wf w ->
  tm ∈ timers w ->
  (forall tm', tm' ∈ timers w -> due tm <= due tm') ->
  wf (fire_timer tm w).
Proof.
  intros Hwf Hin Hmin. unfold fire_timer.
  assert (forall tm', tm' ∈ timers w -> timer_id tm' <> timer_id tm ->
                      Z.max (now w) (due tm) <= due tm') as Hnow.
  { intros tm' Hin' _. pose proof (wf_future w Hwf _ Hin').
    specialize (Hmin _ Hin'). lia. }
  destruct (cb tm) as [tabId| |] eqn:Hcb; cbn [fire now nextTimerId timers dragDebounce passes].
  - pose proof (wf_registered w Hwf _ _ Hin Hcb) as Hentry.
    apply wf_shrink; [exact Hwf| | |exact Hnow].
    + intros tabId'. destruct (decide (tabId = tabId')) as [<-|Hne].
      * right. now rewrite lookup_delete_eq.
      * left. now rewrite lookup_delete_ne.
    + intros tabId' x [Hne Hx]%lookup_delete_Some ->.
      apply Hne. eapply entries_distinct; eauto.
  - apply wf_shrink; [exact Hwf|now left| |exact Hnow].
    intros tabId x Hx ->. destruct (wf_pending w Hwf _ _ Hx) as [d Hd].
    pose proof (wf_ids w Hwf _ _ Hd Hin eq_refl) as E.
    rewrite <- E in Hcb. discriminate.
  - apply wf_shrink; [exact Hwf|now left| |exact Hnow].
    intros tabId x Hx ->. destruct (wf_pending w Hwf _ _ Hx) as [d Hd].
    pose proof (wf_ids w Hwf _ _ Hd Hin eq_refl) as E.
    rewrite <- E in Hcb. discriminate.
Qed.

Lemma fire_timer_timers tm w :
  timers (fire_timer tm w)
  = filter (fun tm' => timer_id tm' <> timer_id tm) (timers w).
Proof. unfold fire_timer. now destruct (cb tm). Qed.

Lemma fire_timer_now tm w : now (fire_timer tm w) = Z.max (now w) (due tm).
Proof. unfold fire_timer. now destruct (cb tm). Qed.

Lemma fire_timer_shrinks tm w :
  tm ∈ timers w -> (length (timers (fire_timer tm w)) < length (timers w))%nat.
Proof.
  intros Hin. rewrite fire_timer_timers.
  apply (length_filter_lt _ _ tm); [exact Hin|]. intros H. now apply H.
Qed.

Lemma wf_fire_due fuel t w : wf w -> wf (fire_due fuel t w).
Proof.
  revert w; induction fuel as [|fuel IH]; intros w Hwf; cbn [fire_due]; [exact Hwf|].
  destruct (next_due t w) as [tm|] eqn:E; [|exact Hwf].
  destruct (next_due_spec _ _ _ E) as (Hin & _ & Hmin).
  apply IH. now apply wf_fire_timer.
Qed.

(** With the length of the table as fuel, no timer due by [t] is left. *)
Lemma fire_due_complete fuel t w tm :
  (length (timers w) <= fuel)%nat ->
  tm ∈ timers (fire_due fuel t w) -> t < due tm.
Proof.
  revert w; induction fuel as [|fuel IH]; intros w Hlen; cbn [fire_due].
  - destruct (timers w); [|cbn in Hlen; lia].
    intros []%elem_of_nil.
  - destruct (next_due t w) as [x|] eqn:E.
    + destruct (next_due_spec _ _ _ E) as (Hin & _ & _).
      apply IH. pose proof (fire_timer_shrinks x w Hin). lia.
    + now apply next_due_None.
Qed.

Lemma fire_due_now fuel t w : now w <= t -> now (fire_due fuel t w) <= t.
Proof.
  revert w; induction fuel as [|fuel IH]; intros w Hnow; cbn [fire_due]; [exact Hnow|].
  destruct (next_due t w) as [x|] eqn:E; [|exact Hnow].
  destruct (next_due_spec _ _ _ E) as (_ & Hdue & _).
  apply IH. rewrite fire_timer_now. lia.
Qed.

Lemma wf_advance_to t w : wf w -> wf (advance_to t w).
Proof.
  intros Hwf. unfold advance_to.
  pose proof (wf_fire_due (length (timers w)) t w Hwf) as Hwf'.
  set (w' := fire_due (length (timers w)) t w) in *.
  split; cbn.
  - apply (wf_fresh w' Hwf').
  - apply (wf_ids w' Hwf').
  - apply (wf_registered w' Hwf').
  - apply (wf_pending w' Hwf').
  - intros tm Hin. pose proof (wf_future w' Hwf' _ Hin).
    pose proof (fire_due_complete _ t w tm (Nat.le_refl _) Hin). lia.
Qed.

Lemma now_advance_to t w : now w <= t -> now (advance_to t w) = t.
Proof.
  intros Hnow. unfold advance_to. cbn.
  pose proof (fire_due_now (length (timers w)) t w Hnow). lia.
Qed.

Lemma now_handle i w : now (handle i w) = now w.
Proof.
  destruct i; cbn [handle]; try reflexivity.
  - rewrite onMoved_unfold. reflexivity.
  - unfold onRemoved. now destruct (dragDebounce w !! tabId).
Qed.

Lemma wf_deliver w ti : wf w -> wf (deliver w ti).
Proof. intros Hwf. apply wf_handle, wf_advance_to, Hwf. Qed.

Lemma wf_run sched w : wf w -> wf (run sched w).
Proof.
  revert w; induction sched as [|ti sched IH]; intros w Hwf; [exact Hwf|].
  apply IH, wf_deliver, Hwf.
Qed.

Create HintDb world.
#[local] Hint Resolve wf_boot wf_onMoved wf_onRemoved wf_handle wf_fire_timer
  wf_fire_due wf_advance_to wf_deliver wf_run : world.

(** In a chronological schedule every input is delivered at its arrival
    time. *)
Lemma run_chronological s1 s2 t0 w :
  now w <= t0 ->
  chronological_from t0 (s1 ++ s2) = true ->
  exists t0', now (run s1 w) <= t0' /\ chronological_from t0' s2 = true.
Proof.
  revert t0 w; induction s1 as [|[t i] s1 IH]; intros t0 w Hnow Hchron.
  - exists t0. auto.
  - cbn in Hchron. apply andb_true_iff in Hchron as [Hle Hchron].
    apply (IH t); [|exact Hchron].
    cbn [deliver fst snd]. unfold deliver. cbn [fst snd].
    rewrite now_handle, now_advance_to; lia.
Qed.

(** ** One tab's view of the world *)

Section OneTab.

Variable tabId : Z.

Lemma passes_of_snoc tabId' t now' next tms m ps :
  passes_of tabId (World now' next tms m (ps ++ [(t, tabId')]))
  = filter (fun p => p.2 = tabId) ps
    ++ (if decide (tabId' = tabId) then [(t, tabId')] else []).
Proof.
  unfold passes_of. cbn [passes]. rewrite filter_app. reflexivity.
Qed.

(** The pending timer of a tab is the only timer that fires for it. *)
Lemma pending_at_unique w d tm :
  wf w -> pending_at tabId d w ->
  tm ∈ timers w -> cb tm = DebounceFire tabId ->
  tm = Timer (timer_id tm) d (DebounceFire tabId).
Proof.
  intros Hwf (x & Hentry & Hx) Hin Hcb.
  pose proof (wf_registered w Hwf _ _ Hin Hcb) as Hreg.
  rewrite Hentry in Hreg. injection Hreg as ->.
  symmetry. exact (wf_ids w Hwf _ _ Hx Hin eq_refl).
Qed.

(** A timer of another tab, or of another kind, fires. *)
Lemma fire_timer_other w tm :
  wf w -> tm ∈ timers w -> cb tm <> DebounceFire tabId ->
  dragDebounce (fire_timer tm w) !! tabId = dragDebounce w !! tabId
  /\ passes_of tabId (fire_timer tm w) = passes_of tabId w
  /\ forall d, pending_at tabId d w -> pending_at tabId d (fire_timer tm w).
Proof.
  intros Hwf Hin Hcb.
  assert (forall d x, Timer x d (DebounceFire tabId) ∈ timers w ->
                      Timer x d (DebounceFire tabId) ∈ timers (fire_timer tm w))
    as Hkeep.
  { intros d x Hx. rewrite fire_timer_timers. apply list_elem_of_filter.
    split; [|exact Hx]. cbn. intros E.
    pose proof (wf_ids w Hwf _ _ Hx Hin E) as E'. rewrite <- E' in Hcb.
    now apply Hcb. }
  unfold fire_timer in *. destruct (cb tm) as [tabId'| |] eqn:Ecb;
    cbn [fire dragDebounce passes now nextTimerId timers] in *.
  - assert (tabId' <> tabId) as Hne by congruence.
    split; [now rewrite lookup_delete_ne|].
    split.
    + rewrite passes_of_snoc. rewrite decide_False by exact Hne.
      now rewrite app_nil_r.
    + intros d (x & Hentry & Hx). exists x. cbn [dragDebounce timers].
      split; [now rewrite lookup_delete_ne|]. now apply Hkeep.
  - split; [reflexivity|]. split; [reflexivity|].
    intros d (x & Hentry & Hx). exists x. split; [exact Hentry|now apply Hkeep].
  - split; [reflexivity|]. split; [reflexivity|].
    intros d (x & Hentry & Hx). exists x. split; [exact Hentry|now apply Hkeep].
Qed.

(** The debounce timer of the tab fires: the entry is deleted and one pass
    starts, at the time the timer was due. *)
Lemma fire_timer_self w tm :
  cb tm = DebounceFire tabId ->
  dragDebounce (fire_timer tm w) !! tabId = None
  /\ passes_of tabId (fire_timer tm w)
     = passes_of tabId w ++ [(Z.max (now w) (due tm), tabId)].
Proof.
  intros Hcb. unfold fire_timer. rewrite Hcb.
  cbn [fire dragDebounce passes now nextTimerId timers].
  split; [apply lookup_delete_eq|].
  rewrite passes_of_snoc. now rewrite decide_True.
Qed.

(** No pass starts for a tab that has no entry. *)
Lemma fire_due_idle fuel t w :
  wf w -> dragDebounce w !! tabId = None ->
  dragDebounce (fire_due fuel t w) !! tabId = None
  /\ passes_of tabId (fire_due fuel t w) = passes_of tabId w.
Proof.
  revert w; induction fuel as [|fuel IH]; intros w Hwf Hidle; cbn [fire_due]; [done|].
  destruct (next_due t w) as [tm|] eqn:E; [|done].
  destruct (next_due_spec _ _ _ E) as (Hin & _ & Hmin).
  assert (cb tm <> DebounceFire tabId) as Hcb.
  { intros Hcb. pose proof (wf_registered w Hwf _ _ Hin Hcb). congruence. }
  destruct (fire_timer_other w tm Hwf Hin Hcb) as (Hdd & Hps & _).
  destruct (IH (fire_timer tm w)) as [H1 H2].
  - now apply wf_fire_timer.
  - now rewrite Hdd.
  - split; [exact H1|]. now rewrite H2.
Qed.

(** Before the pending timer of a tab is due, nothing happens to the tab. *)
Lemma fire_due_early fuel t w d :
  wf w -> pending_at tabId d w -> t < d ->
  pending_at tabId d (fire_due fuel t w)
  /\ passes_of tabId (fire_due fuel t w) = passes_of tabId w.
Proof.
  revert w; induction fuel as [|fuel IH]; intros w Hwf Hpend Hlt; cbn [fire_due]; [done|].
  destruct (next_due t w) as [tm|] eqn:E; [|done].
  destruct (next_due_spec _ _ _ E) as (Hin & Hdue & Hmin).
  assert (cb tm <> DebounceFire tabId) as Hcb.
  { intros Hcb. pose proof (pending_at_unique w _ _ Hwf Hpend Hin Hcb) as Etm.
    rewrite Etm in Hdue. cbn in Hdue. lia. }
  destruct (fire_timer_other w tm Hwf Hin Hcb) as (_ & Hps & Hkeep).
  destruct (IH (fire_timer tm w)) as [H1 H2].
  - now apply wf_fire_timer.
  - now apply Hkeep.
  - exact Hlt.
  - split; [exact H1|]. now rewrite H2.
Qed.

(** Once the pending timer of a tab is due, it fires: exactly one pass starts
    for the tab, at the due time, and the entry is deleted. *)
Lemma fire_due_fires fuel t w d :
  wf w -> pending_at tabId d w -> d <= t ->
  (length (timers w) <= fuel)%nat ->
  dragDebounce (fire_due fuel t w) !! tabId = None
  /\ passes_of tabId (fire_due fuel t w) = passes_of tabId w ++ [(d, tabId)].
Proof.
  revert w; induction fuel as [|fuel IH]; intros w Hwf Hpend Hle Hlen.
  - destruct Hpend as (x & _ & Hx).
    destruct (timers w); [now apply elem_of_nil in Hx|cbn in Hlen; lia].
  - cbn [fire_due]. destruct (next_due t w) as [tm|] eqn:E.
    + destruct (next_due_spec _ _ _ E) as (Hin & Hdue & Hmin).
      pose proof (wf_fire_timer w tm Hwf Hin Hmin) as Hwf'.
      destruct (decide (cb tm = DebounceFire tabId)) as [Hcb|Hcb].
      * pose proof (pending_at_unique w _ _ Hwf Hpend Hin Hcb) as Etm.
        destruct (fire_timer_self w tm Hcb) as [Hdd Hps].
        destruct (fire_due_idle fuel t _ Hwf' Hdd) as [H1 H2].
        split; [exact H1|]. rewrite H2, Hps. do 2 f_equal.
        pose proof (wf_future w Hwf _ Hin) as Hfut.
        rewrite Etm in Hfut |- *. cbn in *. f_equal. lia.
      * destruct (fire_timer_other w tm Hwf Hin Hcb) as (_ & Hps & Hkeep).
        destruct (IH (fire_timer tm w)) as [H1 H2].
        -- exact Hwf'.
        -- now apply Hkeep.
        -- exact Hle.
        -- pose proof (fire_timer_shrinks tm w Hin). lia.
        -- split; [exact H1|]. now rewrite H2, Hps.
    + destruct Hpend as (x & _ & Hx).
      pose proof (next_due_None _ _ _ E Hx) as Hlate. cbn in Hlate. lia.
Qed.

Lemma advance_to_idle t w :
  wf w -> dragDebounce w !! tabId = None ->
  dragDebounce (advance_to t w) !! tabId = None
  /\ passes_of tabId (advance_to t w) = passes_of tabId w.
Proof. intros Hwf Hidle. exact (fire_due_idle _ t w Hwf Hidle). Qed.

Lemma advance_to_early t w d :
  wf w -> pending_at tabId d w -> t < d ->
  pending_at tabId d (advance_to t w)
  /\ passes_of tabId (advance_to t w) = passes_of tabId w.
Proof. intros Hwf Hpend Hlt. exact (fire_due_early _ t w d Hwf Hpend Hlt). Qed.

Lemma advance_to_fires t w d :
  wf w -> pending_at tabId d w -> d <= t ->
  dragDebounce (advance_to t w) !! tabId = None
  /\ passes_of tabId (advance_to t w) = passes_of tabId w ++ [(d, tabId)].
Proof.
  intros Hwf Hpend Hle.
  exact (fire_due_fires _ t w d Hwf Hpend Hle (Nat.le_refl _)).
Qed.

(** ** The listeners, seen from one tab *)

Lemma onMoved_pending w :
  pending_at tabId (now w + DEBOUNCE_DELAY) (onMoved tabId w)
  /\ passes_of tabId (onMoved tabId w) = passes_of tabId w.
Proof.
  rewrite onMoved_unfold. cbn zeta. split; [|reflexivity].
  exists (nextTimerId w). cbn [dragDebounce timers].
  split; [apply lookup_insert_eq|].
  apply elem_of_app. right. apply list_elem_of_singleton. reflexivity.
Qed.

(** A move notification cancels the timer that was pending for the tab. *)
Lemma onMoved_cancels w pending tm :
  wf w ->
  dragDebounce w !! tabId = Some pending ->
  tm ∈ timers (onMoved tabId w) ->
  timer_id tm <> pending.
Proof.
  intros Hwf Hentry. rewrite onMoved_unfold, Hentry. cbn [timers].
  intros [[Hne _]%list_elem_of_filter| ->%list_elem_of_singleton]%elem_of_app.
  - exact Hne.
  - cbn. destruct (wf_pending w Hwf _ _ Hentry) as [d Hd].
    pose proof (wf_fresh w Hwf _ Hd) as Hlt. cbn in Hlt. lia.
Qed.

Lemma onRemoved_spec w :
  dragDebounce (onRemoved tabId w) !! tabId = None
  /\ passes_of tabId (onRemoved tabId w) = passes_of tabId w
  /\ (dragDebounce w !! tabId = None -> onRemoved tabId w = w).
Proof.
  unfold onRemoved. destruct (dragDebounce w !! tabId) eqn:Hentry.
  - cbn [dragDebounce clearTimeout]. split; [apply lookup_delete_eq|].
    split; [reflexivity|discriminate].
  - auto.
Qed.

(** A tab without an entry has no debounce timer. *)
Lemma idle_no_timer w tm :
  wf w -> dragDebounce w !! tabId = None ->
  tm ∈ timers w -> cb tm <> DebounceFire tabId.
Proof.
  intros Hwf Hidle Hin Hcb.
  pose proof (wf_registered w Hwf _ _ Hin Hcb). congruence.
Qed.

(** Inputs that concern another tab, or a timer of another kind. *)
Lemma handle_other i w :
  wf w -> i <> Moved tabId -> i <> Removed tabId ->
  dragDebounce (handle i w) !! tabId = dragDebounce w !! tabId
  /\ passes_of tabId (handle i w) = passes_of tabId w
  /\ forall d, pending_at tabId d w -> pending_at tabId d (handle i w).
Proof.
  intros Hwf Hmoved Hremoved.
  destruct i as [tabId'|tabId'| |delay]; cbn [handle].
  - assert (tabId' <> tabId) as Hne by congruence.
    rewrite onMoved_unfold. cbn zeta. cbn [dragDebounce].
    split; [now rewrite lookup_insert_ne|]. split; [reflexivity|].
    intros d (x & Hentry & Hx). exists x. cbn [dragDebounce timers].
    split; [now rewrite lookup_insert_ne|].
    apply elem_of_app. left.
    destruct (dragDebounce w !! tabId') as [pending|] eqn:Hentry'; [|exact Hx].
    apply list_elem_of_filter. split; [|exact Hx]. cbn. intros ->.
    apply Hne. eapply entries_distinct; eauto.
  - assert (tabId' <> tabId) as Hne by congruence.
    unfold onRemoved.
    destruct (dragDebounce w !! tabId') as [pending|] eqn:Hentry'; [|done].
    cbn [dragDebounce clearTimeout timers].
    split; [now rewrite lookup_delete_ne|]. split; [reflexivity|].
    intros d (x & Hentry & Hx). exists x. cbn [dragDebounce timers].
    split; [now rewrite lookup_delete_ne|].
    apply list_elem_of_filter. split; [|exact Hx]. cbn. intros ->.
    apply Hne. eapply entries_distinct; eauto.
  - split; [reflexivity|]. split; [reflexivity|].
    intros d (x & Hentry & Hx). exists x. split; [exact Hentry|].
    cbn. apply elem_of_app. now left.
  - split; [reflexivity|]. split; [reflexivity|].
    intros d (x & Hentry & Hx). exists x. split; [exact Hentry|].
    cbn. apply elem_of_app. now left.
Qed.

Lemma run_cons t i rest w :
  run ((t, i) :: rest) w = run rest (handle i (advance_to t w)).
Proof. reflexivity. Qed.

Lemma run_app s1 s2 w : run (s1 ++ s2) w = run s2 (run s1 w).
Proof. apply fold_left_app. Qed.

(** Without a move notification a tab without an entry stays so, and no pass
    starts for it. *)
Lemma run_idle rest :
  forall w,
    wf w -> dragDebounce w !! tabId = None ->
    no_move tabId rest = true ->
    dragDebounce (run rest w) !! tabId = None
    /\ passes_of tabId (run rest w) = passes_of tabId w.
Proof.
  induction rest as [|[t i] rest IH]; intros w Hwf Hidle Hno; [done|].
  cbn in Hno. apply andb_true_iff in Hno as [Hi Hno].
  rewrite run_cons.
  destruct (advance_to_idle t w Hwf Hidle) as [Hidle1 Hps1].
  assert (wf (advance_to t w)) as Hwf1 by auto with world.
  assert (dragDebounce (handle i (advance_to t w)) !! tabId = None
          /\ passes_of tabId (handle i (advance_to t w)) = passes_of tabId w)
    as [Hidle2 Hps2].
  { destruct (decide (i = Removed tabId)) as [->|Hrem].
    - cbn [handle].
      destruct (onRemoved_spec (advance_to t w)) as (_ & _ & Hsame).
      rewrite (Hsame Hidle1). auto.
    - assert (i <> Moved tabId) as Hmov.
      { intros ->. rewrite Z.eqb_refl in Hi. discriminate. }
      destruct (handle_other i _ Hwf1 Hmov Hrem) as (Hdd & Hps & _).
      rewrite Hdd, Hps. auto. }
  destruct (IH (handle i (advance_to t w))) as [H1 H2];
    [auto with world|exact Hidle2|exact Hno|].
  split; [exact H1|]. now rewrite H2.
Qed.

(** ** Bursts *)

(** After the timer of the burst has fired, the burst cannot go on: a move
    notification for the tab would come too late to belong to it. *)
Lemma burst_over last rest :
  forall w t0 t_last,
    wf w -> dragDebounce w !! tabId = None ->
    last + DEBOUNCE_DELAY <= t0 ->
    chronological_from t0 rest = true ->
    burst tabId last rest = Some t_last ->
    t_last = last
    /\ wf (run rest w)
    /\ dragDebounce (run rest w) !! tabId = None
    /\ passes_of tabId (run rest w) = passes_of tabId w.
Proof.
  induction rest as [|[t i] rest IH]; intros w t0 t_last Hwf Hidle Hlate Hchron Hburst.
  - cbn in Hburst. injection Hburst as <-. auto.
  - cbn in Hchron. apply andb_true_iff in Hchron as [Hle Hchron].
    apply Z.leb_le in Hle.
    rewrite run_cons.
    destruct (advance_to_idle t w Hwf Hidle) as [Hidle1 Hps1].
    assert (wf (advance_to t w)) as Hwf1 by auto with world.
    assert (i <> Moved tabId /\ i <> Removed tabId
            /\ burst tabId last rest = Some t_last) as (Hmov & Hrem & Hrest).
    { destruct i as [tabId'|tabId'| |delay]; cbn in Hburst.
      - destruct (decide (tabId' = tabId)) as [->|Hne].
        + assert ((t <? last + DEBOUNCE_DELAY) = false) as E by lia.
          rewrite E in Hburst. discriminate.
        + repeat split; [congruence|discriminate|exact Hburst].
      - destruct (decide (tabId' = tabId)) as [->|Hne]; [discriminate|].
        repeat split; [discriminate|congruence|exact Hburst].
      - repeat split; [discriminate|discriminate|exact Hburst].
      - repeat split; [discriminate|discriminate|exact Hburst]. }
    destruct (handle_other i _ Hwf1 Hmov Hrem) as (Hdd & Hps & _).
    destruct (IH (handle i (advance_to t w)) t t_last) as (-> & H1 & H2 & H3);
      [auto with world|now rewrite Hdd|lia|exact Hchron|exact Hrest|].
    split; [reflexivity|]. split; [exact H1|]. split; [exact H2|].
    now rewrite H3, Hps.
Qed.

(** A burst whose latest move notification arrived at [last], seen from the
    moment its timer is pending: one pass starts, [DEBOUNCE_DELAY] after the
    last move notification of the burst. *)
Lemma burst_fires_once rest :
  forall w last t0 t_last t_end,
    wf w -> pending_at tabId (last + DEBOUNCE_DELAY) w ->
    now w <= t0 ->
    chronological_from t0 rest = true ->
    burst tabId last rest = Some t_last ->
    t_last + DEBOUNCE_DELAY <= t_end ->
    passes_of tabId (advance_to t_end (run rest w))
    = passes_of tabId w ++ [(t_last + DEBOUNCE_DELAY, tabId)].
Proof.
  induction rest as [|[t i] rest IH];
    intros w last t0 t_last t_end Hwf Hpend Hnow Hchron Hburst Hend.
  - cbn in Hburst. injection Hburst as <-.
    exact (proj2 (advance_to_fires t_end w _ Hwf Hpend Hend)).
  - cbn in Hchron. apply andb_true_iff in Hchron as [Hle Hchron].
    apply Z.leb_le in Hle.
    rewrite run_cons.
    assert (wf (advance_to t w)) as Hwf1 by auto with world.
    assert (now (advance_to t w) = t) as Hnow1 by (apply now_advance_to; lia).
    destruct (Z.lt_ge_cases t (last + DEBOUNCE_DELAY)) as [Hearly|Hlate].
    + destruct (advance_to_early t w _ Hwf Hpend Hearly) as [Hpend1 Hps1].
      destruct (decide (i = Moved tabId)) as [->|Hmov].
      * cbn in Hburst. rewrite decide_True in Hburst by reflexivity.
        assert ((t <? last + DEBOUNCE_DELAY) = true) as E by lia.
        rewrite E in Hburst. cbn [handle].
        destruct (onMoved_pending (advance_to t w)) as [Hpend2 Hps2].
        rewrite Hnow1 in Hpend2.
        rewrite (IH (onMoved tabId (advance_to t w)) t t t_last t_end);
          [now rewrite Hps2, Hps1|auto with world|exact Hpend2| |
           exact Hchron|exact Hburst|exact Hend].
        change (now (handle (Moved tabId) (advance_to t w)) <= t).
        rewrite now_handle. lia.
      * assert (i <> Removed tabId /\ burst tabId last rest = Some t_last)
          as (Hrem & Hrest).
        { destruct i as [tabId'|tabId'| |delay]; cbn in Hburst.
          - destruct (decide (tabId' = tabId)) as [->|Hne]; [congruence|].
            split; [discriminate|exact Hburst].
          - destruct (decide (tabId' = tabId)) as [->|Hne]; [discriminate|].
            split; [congruence|exact Hburst].
          - split; [discriminate|exact Hburst].
          - split; [discriminate|exact Hburst]. }
        destruct (handle_other i _ Hwf1 Hmov Hrem) as (_ & Hps & Hkeep).
        rewrite (IH (handle i (advance_to t w)) last t t_last t_end);
          [now rewrite Hps, Hps1|auto with world|now apply Hkeep| |
           exact Hchron|exact Hrest|exact Hend].
        rewrite now_handle. lia.
    + destruct (advance_to_fires t w _ Hwf Hpend Hlate) as [Hidle1 Hps1].
      assert (i <> Moved tabId /\ i <> Removed tabId
              /\ burst tabId last rest = Some t_last) as (Hmov & Hrem & Hrest).
      { destruct i as [tabId'|tabId'| |delay]; cbn in Hburst.
        - destruct (decide (tabId' = tabId)) as [->|Hne].
          + assert ((t <? last + DEBOUNCE_DELAY) = false) as E by lia.
            rewrite E in Hburst. discriminate.
          + repeat split; [congruence|discriminate|exact Hburst].
        - destruct (decide (tabId' = tabId)) as [->|Hne]; [discriminate|].
          repeat split; [discriminate|congruence|exact Hburst].
        - repeat split; [discriminate|discriminate|exact Hburst].
        - repeat split; [discriminate|discriminate|exact Hburst]. }
      destruct (handle_other i _ Hwf1 Hmov Hrem) as (Hdd & Hps & _).
      destruct (burst_over last rest (handle i (advance_to t w)) t t_last)
        as (-> & Hwf3 & Hidle3 & Hps3);
        [auto with world|now rewrite Hdd|lia|exact Hchron|exact Hrest|].
      rewrite (proj2 (advance_to_idle t_end _ Hwf3 Hidle3)).
      now rewrite Hps3, Hps, Hps1.
Qed.

End OneTab.

(** Every pass opens by reading the tab from the browser: the position it
    classifies is the one of that moment. *)
Lemma processFinalPosition_reads tabId tr u :
  runs (processFinalPosition tabId) tr u ->
  exists a tr', tr = EvTabsGet tabId a :: tr'.
Proof.
  intros H. unfold processFinalPosition in H. run_step H. eauto.
Qed.

(** C8. A burst of move notifications for one tab, each arriving less than
    [DEBOUNCE_DELAY] after the previous one, after any history of the service
    worker and with inputs for other tabs and other timers interleaved:
    exactly one pass starts for the tab from the first notification on,
    [DEBOUNCE_DELAY] after the last one; the pass reads the tab at that
    time; and every move notification cancels the timer that was pending
    for the tab. *)
Theorem debounce_coalescing history tabId t1 rest t_last t_end :
  chronological (history ++ (t1, Moved tabId) :: rest) = true ->
  burst tabId t1 rest = Some t_last ->
  t_last + DEBOUNCE_DELAY <= t_end ->
  let before := advance_to t1 (run history boot) in
  let after :=
    advance_to t_end (run (history ++ (t1, Moved tabId) :: rest) boot) in
  passes_of tabId after
  = passes_of tabId before ++ [(t_last + DEBOUNCE_DELAY, tabId)]
  /\ (forall tr u, runs (processFinalPosition tabId) tr u ->
                   exists a tr', tr = EvTabsGet tabId a :: tr')
  /\ (forall sched t pending tm,
         let w := advance_to t (run sched boot) in
         dragDebounce w !! tabId = Some pending ->
         tm ∈ timers (onMoved tabId w) ->
         timer_id tm <> pending).
Proof.
  intros Hchron Hburst Hend before after.
  split; [|split].
  - subst before after. rewrite run_app, run_cons.
    pose proof (wf_run history boot wf_boot) as Hwf0.
    destruct (run_chronological history ((t1, Moved tabId) :: rest) 0 boot)
      as (t0 & Hnow0 & Hchron0); [cbn; lia|exact Hchron|].
    cbn in Hchron0. apply andb_true_iff in Hchron0 as [Hle Hchron0].
    apply Z.leb_le in Hle.
    set (w := advance_to t1 (run history boot)).
    assert (wf w) as Hwf by (subst w; auto with world).
    assert (now w = t1) as Hnow by (apply now_advance_to; lia).
    cbn [handle].
    destruct (onMoved_pending tabId w) as [Hpend Hps]. rewrite Hnow in Hpend.
    rewrite (burst_fires_once tabId rest (onMoved tabId w) t1 t1 t_last t_end);
      [now rewrite Hps|auto with world|exact Hpend| |
       exact Hchron0|exact Hburst|exact Hend].
    change (now (handle (Moved tabId) w) <= t1). rewrite now_handle. lia.
  - apply processFinalPosition_reads.
  - intros sched t pending tm w. apply onMoved_cancels.
    subst w. auto with world.
Qed.

Lemma debounce_coalescing_witness :
  passes_of 7
    (advance_to 1600 (run (sample_history ++ (200, Moved 7) :: sample_burst) boot))
  = passes_of 7 (advance_to 200 (run sample_history boot)) ++ [(1600, 7)].
Proof.
  apply (debounce_coalescing sample_history 7 200 sample_burst 1000 1600).
  - reflexivity.
  - reflexivity.
  - unfold DEBOUNCE_DELAY. lia.
Defined.

(** The same schedule, computed: tab 8 gets its pass at 600 and loses the
    second one to the removal; tab 7 gets one pass, at 1600. *)
Example sample_passes :
  passes
    (advance_to 5000 (run (sample_history ++ (200, Moved 7) :: sample_burst) boot))
  = [(600, 8); (1600, 7)].
Proof. vm_compute. reflexivity. Qed.

(** A move notification that arrives exactly [DEBOUNCE_DELAY] after the
    previous one finds the timer fired, in this model where the timers due at
    a time fire before an input that arrives at that time: the bound of the
    burst is strict. *)
Example sample_tie :
  passes (advance_to 5000 (run [(0, Moved 7); (600, Moved 7)] boot))
  = [(600, 7); (1200, 7)].
Proof. vm_compute. reflexivity. Qed.


(** C9. A removal notification for a tab, after any history: the entry of the
    tab is deleted, no debounce timer of the tab is left, and as long as no
    new move notification arrives for the tab no pass starts for it, however
    long one waits; when the tab had no entry, the listener changes
    nothing. *)
Theorem removal_cancels history tabId t rest t_end :
  no_move tabId rest = true ->
  let before := advance_to t (run history boot) in
  let removed := onRemoved tabId before in
  dragDebounce removed !! tabId = None
  /\ (forall tm, tm ∈ timers removed -> cb tm <> DebounceFire tabId)
  /\ passes_of tabId (advance_to t_end (run rest removed))
     = passes_of tabId before
  /\ (dragDebounce before !! tabId = None -> removed = before).
Proof.
  intros Hno before removed.
  assert (wf before) as Hwf by (unfold before; auto with world).
  assert (wf removed) as Hwf' by (unfold removed; auto with world).
  destruct (onRemoved_spec tabId before) as (Hidle & Hps & Hsame).
  fold removed in Hidle, Hps, Hsame.
  split; [exact Hidle|]. split.
  { intros tm. now apply idle_no_timer. }
  split; [|exact Hsame].
  destruct (run_idle tabId rest removed Hwf' Hidle Hno) as [Hidle2 Hps2].
  rewrite (proj2 (advance_to_idle tabId t_end _ (wf_run rest _ Hwf') Hidle2)).
  now rewrite Hps2.
Qed.

Lemma removal_cancels_witness :
  let before := advance_to 100 (run [(0, Moved 7)] boot) in
  let removed := onRemoved 7 before in
  dragDebounce before !! 7 = Some 1
  /\ dragDebounce removed !! 7 = None
  /\ passes_of 7 (advance_to 5000 (run [(200, Moved 8)] removed)) = [].
Proof.
  intros before removed.
  split; [reflexivity|].
  destruct (removal_cancels [(0, Moved 7)] 7 100 [(200, Moved 8)] 5000 eq_refl)
    as (Hidle & _ & Hpasses & _).
  split; [exact Hidle|exact Hpasses].
Defined.


(** * Further properties of the asynchronous programs *)

(** ** The backoff schedule *)

Lemma power_three_halves_ge_1 n : (1 <= (3 # 2) ^ Z.of_nat n)%Q.
Proof. apply Qpower_1_le; [|lia]. unfold Qle; cbn; lia. Qed.

Lemma power_three_halves_succ n :
  ((3 # 2) ^ Z.of_nat (S n) == (3 # 2) ^ Z.of_nat n * (3 # 2))%Q.
Proof.
  rewrite Nat2Z.inj_succ. unfold Z.succ.
  rewrite Qpower_plus by (unfold Qeq; cbn; lia). reflexivity.
Qed.

Lemma power_three_halves_mono n m :
  (n <= m)%nat -> ((3 # 2) ^ Z.of_nat n <= (3 # 2) ^ Z.of_nat m)%Q.
Proof.
  intros Hle. apply Qpower_le_compat_l; [lia|]. unfold Qle; cbn; lia.
Qed.

(** X1. The wait before the next attempt is never shorter than 100 and never
    longer than 2000, it never shrinks from one attempt to the next, it stays
    below 2000 up to attempt 7 and is 2000 from attempt 8 on. *)
Theorem backoff_delay_bounds (attempt_no : nat) :
  (100 <= backoff_delay attempt_no)%Q
  /\ (backoff_delay attempt_no <= 2000)%Q
  /\ (backoff_delay attempt_no <= backoff_delay (S attempt_no))%Q
  /\ ((attempt_no < 8)%nat -> (backoff_delay attempt_no < 2000)%Q)
  /\ ((8 <= attempt_no)%nat -> (backoff_delay attempt_no == 2000)%Q).
Proof.
  unfold backoff_delay.
  pose proof (power_three_halves_ge_1 attempt_no) as H1.
  split; [|split; [|split; [|split]]].
  - apply Q.min_glb; lra.
  - apply Q.le_min_r.
  - apply Q.min_le_compat_r.
    pose proof (power_three_halves_mono attempt_no (S attempt_no)) as Hm.
    specialize (Hm ltac:(lia)). lra.
  - intros Hlt.
    pose proof (power_three_halves_mono attempt_no 7 ltac:(lia)) as Hm.
    assert ((3 # 2) ^ Z.of_nat 7 == 2187 # 128)%Q as E7 by reflexivity.
    eapply Qle_lt_trans; [apply Q.le_min_l|]. lra.
  - intros Hge.
    pose proof (power_three_halves_mono 8 attempt_no Hge) as Hm.
    assert ((3 # 2) ^ Z.of_nat 8 == 6561 # 256)%Q as E8 by reflexivity.
    apply Q.min_r. lra.
Qed.

(** ** How far the retry executor goes *)

Lemma reads_app tr1 tr2 : reads (tr1 ++ tr2) = (reads tr1 + reads tr2)%nat.
Proof. unfold reads. now rewrite filter_app, length_app. Qed.

Lemma reads_none tr :
  forallb (fun e => negb (opens_attempt e)) tr = true -> reads tr = 0%nat.
Proof.
  unfold reads. induction tr as [|e tr IH]; [reflexivity|].
  cbn [forallb]. intros [He Htr]%andb_true_iff.
  rewrite filter_cons_False; [now apply IH|].
  destruct (opens_attempt e); [discriminate|]. discriminate.
Qed.

Lemma reads_attempt tabId action targetIndex tr res :
  runs (attempt tabId action targetIndex) tr res -> reads tr = 1%nat.
Proof.
  intros ((a & tr' & -> & Hno) & _)%attempt_shape.
  change (EvTabsGet tabId a :: tr') with ([EvTabsGet tabId a] ++ tr').
  rewrite reads_app, (reads_none _ Hno). reflexivity.
Qed.

(** The waits of a run are an initial part of the backoff schedule, one wait
    at most per attempt, and the attempts do not exceed the ones allowed. *)
Lemma retry_bounded_run tabId action targetIndex remaining :
  forall attempt_no tr r,
    runs (retry tabId action targetIndex remaining attempt_no) tr r ->
    exists k,
      (k <= reads tr)%nat
      /\ (reads tr <= remaining)%nat
      /\ waits tr = map backoff_delay (seq attempt_no k).
Proof.
  induction remaining as [|n IH]; intros attempt_no tr r H.
  - destruct H as [-> _]. exists 0%nat. cbn. auto.
  - apply retry_step in H as (tr1 & res & H1 & H2).
    pose proof (reads_attempt _ _ _ _ _ H1) as Hreads.
    apply attempt_shape in H1 as (_ & Hwait & _).
    destruct res as [b|m].
    + destruct H2 as [-> _]. exists 0%nat. rewrite Hreads, Hwait. cbn.
      split; [lia|]. split; [lia|reflexivity].
    + destruct (includes m DRAG_LOCK).
      * destruct H2 as (tr2 & -> & H2).
        destruct (IH _ _ _ H2) as (k & Hk1 & Hk2 & Hk3).
        exists (S k).
        change (EvSleep (backoff_delay attempt_no) :: tr2)
          with ([EvSleep (backoff_delay attempt_no)] ++ tr2).
        rewrite !reads_app, !waits_app, Hreads, Hwait, Hk3.
        change (reads [EvSleep (backoff_delay attempt_no)]) with 0%nat.
        split; [lia|]. split; [lia|reflexivity].
      * destruct H2 as [-> _]. exists 0%nat. rewrite Hreads, Hwait. cbn.
        split; [lia|]. split; [lia|reflexivity].
Qed.

Lemma Qsum_backoff_le k :
  forall attempt_no,
    (Qsum (map backoff_delay (seq attempt_no k)) <= 2000 * inject_Z (Z.of_nat k))%Q.
Proof.
  induction k as [|k IH]; intros attempt_no.
  - unfold Qle. cbn. lia.
  - change (Qsum (map backoff_delay (seq attempt_no (S k))))
      with (backoff_delay attempt_no
            + Qsum (map backoff_delay (seq (S attempt_no) k)))%Q.
    specialize (IH (S attempt_no)).
    pose proof (Q.le_min_r (100 * (3 # 2) ^ Z.of_nat attempt_no) 2000) as Hd.
    fold (backoff_delay attempt_no) in Hd.
    rewrite Nat2Z.inj_succ. unfold Z.succ. rewrite inject_Z_plus.
    set (d := backoff_delay attempt_no) in *.
    set (rest := Qsum (map backoff_delay (seq (S attempt_no) k))) in *.
    set (c := inject_Z (Z.of_nat k)) in *.
    clearbody d rest c. change (inject_Z 1) with 1%Q. lra.
Qed.

(** X2. Against every host [executeWithRetry] reads the tab at most
    [maxRetries] times, it waits at most once per read, its waits are the
    first waits of the backoff schedule, and they add up to [2000 *
    maxRetries] at most. *)
Theorem retry_bounded {state : Type} (h : host state) (s s' : state)
  tabId action targetIndex maxRetries tr r :
  exec h (executeWithRetry tabId action targetIndex maxRetries) s
  = (tr, r, s') ->
  (reads tr <= maxRetries)%nat
  /\ (length (waits tr) <= reads tr)%nat
  /\ waits tr = map backoff_delay (seq 0 (length (waits tr)))
  /\ (Qsum (waits tr) <= 2000 * inject_Z (Z.of_nat maxRetries))%Q.
Proof.
  intros E. apply exec_run in E.
  destruct (retry_bounded_run _ _ _ _ _ _ _ E) as (k & Hk1 & Hk2 & Hk3).
  assert (length (waits tr) = k) as Hlen
      by (rewrite Hk3, length_map, length_seq; reflexivity).
  split; [exact Hk2|]. split; [lia|]. split; [now rewrite Hlen|].
  rewrite Hk3. eapply Qle_trans; [apply Qsum_backoff_le|].
  assert (inject_Z (Z.of_nat k) <= inject_Z (Z.of_nat maxRetries))%Q as Hle.
  { rewrite <- Zle_Qle. lia. }
  lra.
Qed.

(** The user lets go of the tab after three locked reads. *)
Lemma retry_bounded_witness :
  let tr := (exec (dragging_host 3 (tab7 3 false) three_pinned)
               (executeWithRetry 7 "pin" (Some 3) DEFAULT_MAX_RETRIES) 3%nat).1.1 in
  (reads tr <= 15)%nat
  /\ (length (waits tr) <= reads tr)%nat
  /\ waits tr = map backoff_delay (seq 0 (length (waits tr)))
  /\ (Qsum (waits tr) <= 2000 * inject_Z (Z.of_nat 15))%Q.
Proof.
  exact (retry_bounded (dragging_host 3 (tab7 3 false) three_pinned) 3%nat 0%nat
           7 "pin" (Some 3) DEFAULT_MAX_RETRIES _ true eq_refl).
Defined.

(** ** What the retry executor touches *)





(** Case analysis on the answer the run is waiting for. *)
Ltac run_answer H :=
  lazymatch type of H with
  | context [match ?a with Resolved _ => _ | Rejected _ => _ end] =>
      is_var a; destruct a as [?|?]
  end.

(** ** Actions the retry executor does not know *)

Lemma other_action_attempt tabId action targetIndex tr res :
  action <> "pin"%string -> action <> "unpin"%string ->
  runs (attempt tabId action targetIndex) tr res ->
  exists a, tr = [EvTabsGet tabId a]
            /\ res = match a with
                     | Resolved _ => Resolved true
                     | Rejected m => Rejected m
                     end.
Proof.
  intros Hpin%String.eqb_neq Hunpin%String.eqb_neq H.
  unfold attempt in H. rewrite Hpin, Hunpin in H. cbn [andb] in H.
  run_step H. run_answer H; run_step H; eauto.
Qed.

Lemma other_action_run tabId action targetIndex remaining :
  action <> "pin"%string -> action <> "unpin"%string ->
  forall attempt_no tr r,
    runs (retry tabId action targetIndex remaining attempt_no) tr r ->
    filter (fun e => mutates e = true) tr = []
    /\ forall tab, head tr = Some (EvTabsGet tabId (Resolved tab)) ->
                   tr = [EvTabsGet tabId (Resolved tab)] /\ r = true.
Proof.
  intros Hpin Hunpin.
  induction remaining as [|n IH]; intros attempt_no tr r H.
  - destruct H as [-> _]. split; [reflexivity|discriminate].
  - apply retry_step in H as (tr1 & res & H1 & H2).
    destruct (other_action_attempt _ _ _ _ _ Hpin Hunpin H1) as (a & -> & ->).
    destruct a as [tab|m].
    + destruct H2 as [-> ->]. split; [reflexivity|].
      intros tab' [= <-]. auto.
    + destruct (includes m DRAG_LOCK).
      * destruct H2 as (tr2 & -> & H2).
        destruct (IH _ _ _ H2) as [Hmut _].
        split; [exact Hmut|discriminate].
      * destruct H2 as [-> ->]. split; [reflexivity|discriminate].
Qed.

(** X4. An action other than ['pin'] and ['unpin'] makes [executeWithRetry]
    read the tab and nothing else: no update, no move, no badge; as soon as
    the read is answered it returns [true]. *)
Theorem unknown_action_is_noop {state : Type} (h : host state) (s s' : state)
  tabId action targetIndex maxRetries tr r :
  exec h (executeWithRetry tabId action targetIndex maxRetries) s
  = (tr, r, s') ->
  action <> "pin"%string -> action <> "unpin"%string ->
  filter (fun e => mutates e = true) tr = []
  /\ forall tab, head tr = Some (EvTabsGet tabId (Resolved tab)) ->
                 tr = [EvTabsGet tabId (Resolved tab)] /\ r = true.
Proof.
  intros E Hpin Hunpin.
  exact (other_action_run _ _ _ _ Hpin Hunpin _ _ _ (exec_run _ _ _ _ _ _ E)).
Qed.

Lemma unknown_action_is_noop_witness :
  let tr := (exec (steady_host (tab7 3 false) three_pinned)
               (executeWithRetry 7 "toggle" (Some 3) DEFAULT_MAX_RETRIES) tt).1.1 in
  filter (fun e => mutates e = true) tr = []
  /\ forall tab, head tr = Some (EvTabsGet 7 (Resolved tab)) ->
                 tr = [EvTabsGet 7 (Resolved tab)] /\ true = true.
Proof.
  apply (unknown_action_is_noop (steady_host (tab7 3 false) three_pinned) tt tt
           7 "toggle" (Some 3) DEFAULT_MAX_RETRIES _ true eq_refl);
    discriminate.
Defined.

(** ** A retry that finds the work done *)

(** X5. When an attempt was stopped by the drag lock and the next read
    reports the tab in the state the action asks for, [executeWithRetry]
    returns [true] at once: whatever the stopped attempt had not yet done
    (the move to the target index, the badge) is not made up for. *)
Theorem retry_finds_work_done {state : Type} (h : host state) (s s' : state)
  tabId action targetIndex remaining attempt_no tr r pre e d tab post message :
  exec h (retry tabId action targetIndex (S remaining) attempt_no) s
  = (tr, r, s') ->
  tr = pre ++ e :: EvSleep d :: EvTabsGet tabId (Resolved tab) :: post ->
  all_resolved pre = true ->
  rejection e = Some message ->
  (action = "pin"%string /\ Tab.pinned tab = true)
  \/ (action = "unpin"%string /\ Tab.pinned tab = false) ->
  post = [] /\ r = true.
Proof.
  intros E Htr Hpre He Hstate.
  pose proof (first_error_run _ _ _ _ _ _ _ _ _ _ _
                (exec_run _ _ _ _ _ _ E) Htr Hpre He) as H.
  destruct (includes message DRAG_LOCK); [|destruct H; discriminate].
  destruct H as (post' & [= _ <-] & H).
  destruct remaining as [|n]; [destruct H; discriminate|].
  destruct (desired_state_run _ _ _ _ _ _ _ _ H eq_refl Hstate) as [[= ->] ->].
  auto.
Qed.

(** The tab is pinned, the move is stopped by the drag lock, and the second
    attempt finds the tab pinned: it is never moved to index 2. *)
Lemma retry_finds_work_done_witness :
  let script :=
    [ EvTabsGet 7 (Resolved (tab7 5 false));
      EvTabsUpdate 7 true (Resolved tt);
      EvTabsQuery (PinnedInWindow 1) (Resolved three_pinned);
      EvTabsMove 7 2 (Rejected LOCKED);
      EvSleep (backoff_delay 0);
      EvTabsGet 7 (Resolved (tab7 5 true)) ] in
  exec replay_host (executeWithRetry 7 "pin" (Some 5) DEFAULT_MAX_RETRIES) script
  = (script, true, [])
  /\ @nil event = [] /\ true = true.
Proof.
  intros script. split; [reflexivity|].
  exact (retry_finds_work_done replay_host script [] 7 "pin" (Some 5) 14 0
           script true
           [ EvTabsGet 7 (Resolved (tab7 5 false));
             EvTabsUpdate 7 true (Resolved tt);
             EvTabsQuery (PinnedInWindow 1) (Resolved three_pinned) ]
           (EvTabsMove 7 2 (Rejected LOCKED)) (backoff_delay 0) (tab7 5 true) []
           LOCKED eq_refl eq_refl eq_refl eq_refl
           (or_introl (conj eq_refl eq_refl))).
Defined.

(** ** The badge *)

Lemma flashBadge_run text color tr r :
  runs (flashBadge text color) tr r ->
  (r = Resolved tt /\ tr = feedback text color)
  \/ (exists m, r = Rejected m
                /\ (tr = [EvSetBadgeText text (Rejected m)]
                    \/ tr = [ EvSetBadgeText text (Resolved tt);
                              EvSetBadgeBackgroundColor color (Rejected m) ])).
Proof.
  intros H. unfold flashBadge in H.
  run_cases H; repeat match goal with u : unit |- _ => destruct u end;
    eauto 8.
Qed.

(** X6. [flashBadge] starts the timer that clears the badge only after both
    badge calls were accepted.  When setting the text is rejected nothing
    else is called; when setting the colour is rejected the text has been
    set and no timer will clear it. *)
Theorem flashBadge_outcomes {state : Type} (h : host state) (s s' : state)
  text color tr r :
  exec h (flashBadge text color) s = (tr, r, s') ->
  (r = Resolved tt /\ tr = feedback text color)
  \/ (exists m, r = Rejected m
                /\ (tr = [EvSetBadgeText text (Rejected m)]
                    \/ tr = [ EvSetBadgeText text (Resolved tt);
                              EvSetBadgeBackgroundColor color (Rejected m) ])).
Proof. intros E. exact (flashBadge_run _ _ _ _ (exec_run _ _ _ _ _ _ E)). Qed.

(** The colour is rejected: the badge keeps its text. *)
Lemma flashBadge_outcomes_witness :
  let script := [ EvSetBadgeText PIN_BADGE (Resolved tt);
                  EvSetBadgeBackgroundColor GREEN (Rejected GONE) ] in
  (@Rejected unit GONE = Resolved tt /\ script = feedback PIN_BADGE GREEN)
  \/ (exists m, @Rejected unit GONE = Rejected m
                /\ (script = [EvSetBadgeText PIN_BADGE (Rejected m)]
                    \/ script = [ EvSetBadgeText PIN_BADGE (Resolved tt);
                                  EvSetBadgeBackgroundColor GREEN (Rejected m) ])).
Proof.
  intros script.
  exact (flashBadge_outcomes replay_host script [] PIN_BADGE GREEN
           script (Rejected GONE) eq_refl).
Defined.

(** ** The toggle command *)

Lemma toggle_flips_run tab others tr r :
  runs togglePinActiveTab tr r ->
  head tr = Some (EvTabsQuery ActiveInCurrentWindow (Resolved (tab :: others))) ->
  all_resolved tr = true ->
  tr = EvTabsQuery ActiveInCurrentWindow (Resolved (tab :: others))
       :: EvTabsUpdate (Tab.id tab) (negb (Tab.pinned tab)) (Resolved tt)
       :: (if Tab.pinned tab then negative_feedback else positive_feedback)
  /\ r = Resolved tt.
Proof.
  intros H Hhd Hok. unfold togglePinActiveTab in H.
  run_step H. cbn in Hhd. simplify_eq.
  cbn [all_resolved forallb rejection andb] in Hok.
  destruct (Tab.pinned tab).
  - run_ok H Hok. run_ok H Hok. run_ok H Hok. run_step H. run_step H. done.
  - run_ok H Hok. run_ok H Hok. run_ok H Hok. run_step H. run_step H. done.
Qed.

(** A run of the toggle command ends at its first rejected call, and rejects
    with the message of that call. *)
Lemma toggle_shape tr r :
  runs togglePinActiveTab tr r ->
  match r with
  | Resolved _ => first_rejection tr = None
  | Rejected m => first_rejection tr = Some (m, [])
  end.
Proof.
  intros H. unfold togglePinActiveTab in H.
  run_step H. run_answer H; [|run_step H; reflexivity].
  cbn [bind await] in H.
  lazymatch type of H with
  | context [match ?l with [] => _ | _ :: _ => _ end] => destruct l
  end.
  - run_step H. reflexivity.
  - run_cases H; reflexivity.
Qed.

(** X7. With an active tab and a host that accepts the calls,
    [togglePinActiveTab] flips the pinned flag of the first tab the query
    returns and flashes the badge of the new state (orange after unpinning,
    green after pinning); it moves no tab and reads nothing else. *)
Theorem toggle_flips {state : Type} (h : host state) (s s' : state)
  tab others tr r :
  exec h togglePinActiveTab s = (tr, r, s') ->
  head tr = Some (EvTabsQuery ActiveInCurrentWindow (Resolved (tab :: others))) ->
  all_resolved tr = true ->
  tr = EvTabsQuery ActiveInCurrentWindow (Resolved (tab :: others))
       :: EvTabsUpdate (Tab.id tab) (negb (Tab.pinned tab)) (Resolved tt)
       :: (if Tab.pinned tab then negative_feedback else positive_feedback)
  /\ r = Resolved tt.
Proof.
  intros E. exact (toggle_flips_run _ _ _ _ (exec_run _ _ _ _ _ _ E)).
Qed.

(** The active tab is tab 7, pinned: it is unpinned. *)
Lemma toggle_flips_witness :
  (exec (steady_host (tab7 2 true) [tab7 2 true]) togglePinActiveTab tt).1.1
  = EvTabsQuery ActiveInCurrentWindow (Resolved [tab7 2 true])
    :: EvTabsUpdate 7 false (Resolved tt) :: negative_feedback
  /\ Resolved tt = Resolved tt.
Proof.
  exact (toggle_flips (steady_host (tab7 2 true) [tab7 2 true]) tt tt
           (tab7 2 true) [] _ (Resolved tt) eq_refl eq_refl eq_refl).
Defined.

(** X8. [togglePinActiveTab] does not retry: the first rejected call, the
    drag-lock rejection included, is the last call it makes, and the
    function rejects with the message of that call. *)
Theorem toggle_does_not_retry {state : Type} (h : host state) (s s' : state)
  tr r pre e post message :
  exec h togglePinActiveTab s = (tr, r, s') ->
  tr = pre ++ e :: post ->
  all_resolved pre = true ->
  rejection e = Some message ->
  post = [] /\ r = Rejected message.
Proof.
  intros E -> Hpre He.
  pose proof (toggle_shape _ _ (exec_run _ _ _ _ _ _ E)) as H.
  rewrite (first_rejection_split pre e post message Hpre He) in H.
  destruct r as [u|m]; [discriminate|].
  injection H as <- <-. auto.
Qed.

(** The user is dragging when the command is invoked: the tab stays pinned
    and no badge is flashed. *)
Lemma toggle_does_not_retry_witness :
  let script := [ EvTabsQuery ActiveInCurrentWindow (Resolved [tab7 2 true]);
                  EvTabsUpdate 7 false (Rejected LOCKED) ] in
  exec replay_host togglePinActiveTab script = (script, Rejected LOCKED, [])
  /\ @nil event = [] /\ @Rejected unit LOCKED = Rejected LOCKED.
Proof.
  intros script. split; [reflexivity|].
  exact (toggle_does_not_retry replay_host script [] script (Rejected LOCKED)
           [EvTabsQuery ActiveInCurrentWindow (Resolved [tab7 2 true])]
           (EvTabsUpdate 7 false (Rejected LOCKED)) [] LOCKED
           eq_refl eq_refl eq_refl eq_refl).
Defined.

(** ** A pass *)

Lemma classify_flag index pinned pinnedCount :
  match classify index pinned pinnedCount with
  | Pin _ => pinned = false
  | Unpin _ => pinned = true
  | NoAction => True
  end.
Proof.
  unfold classify. destruct pinned; cbn [negb andb].
  - destruct (pinnedCount >=? 1); [|exact I].
    destruct (index >=? Z.max 0 (pinnedCount - 2)); [reflexivity|exact I].
  - destruct ((pinnedCount =? 0) && (index =? 0)
              || (pinnedCount >? 0) && (index =? pinnedCount));
      [reflexivity|exact I].
Qed.

(** The three ways a pass can go: the tab cannot be read, its window cannot
    be queried, or the decision is taken and carried out. *)
Lemma pass_shape tabId tr u :
  runs (processFinalPosition tabId) tr u ->
  (exists m, tr = [EvTabsGet tabId (Rejected m)])
  \/ (exists tab m,
         tr = [ EvTabsGet tabId (Resolved tab);
                EvTabsQuery (PinnedInWindow (Tab.windowId tab)) (Rejected m) ])
  \/ (exists tab tabs rest,
         tr = EvTabsGet tabId (Resolved tab)
              :: EvTabsQuery (PinnedInWindow (Tab.windowId tab)) (Resolved tabs)
              :: rest
         /\ match classify (Tab.index tab) (Tab.pinned tab)
                    (Z.of_nat (length tabs)) with
            | Pin i =>
                i = Tab.index tab /\ Tab.pinned tab = false
                /\ exists b, runs (executeWithRetry tabId "pin" (Some i)
                                     DEFAULT_MAX_RETRIES) rest b
            | Unpin i =>
                i = Tab.index tab /\ Tab.pinned tab = true
                /\ exists b, runs (executeWithRetry tabId "unpin" (Some i)
                                     DEFAULT_MAX_RETRIES) rest b
            | NoAction => rest = []
            end).
Proof.
  intros H. pose proof H as H0. unfold processFinalPosition in H0.
  run_step H0. run_answer H0.
  - run_step H0. run_answer H0.
    + right. right. eexists _, _, _. split; [reflexivity|].
      pose proof (processFinalPosition_dispatch _ _ _ _ _ H) as Hd.
      match goal with
      | |- context [classify ?i ?p ?c] =>
          pose proof (classify_flag i p c) as Hf; destruct (classify i p c)
      end.
      * destruct Hd as [-> Hd]. auto.
      * destruct Hd as [-> Hd]. auto.
      * exact Hd.
    + run_step H0. right. left. eauto.
  - run_step H0. left. eauto.
Qed.

(** X9. A pass swallows the failure of its two reads: when the tab cannot be
    read (it was closed) the pass ends after that call, and when the pinned
    tabs of its window cannot be queried it ends after that one; in both
    cases no tab was changed and no badge flashed. *)
Theorem pass_swallows_read_failures {state : Type} (h : host state)
  (s s' : state) tabId tr u pre e post message :
  exec h (processFinalPosition tabId) s = (tr, u, s') ->
  tr = pre ++ e :: post ->
  (length pre <= 1)%nat ->
  rejection e = Some message ->
  post = [] /\ filter (fun e => mutates e = true) tr = [].
Proof.
  intros E -> Hpre He.
  destruct (pass_shape _ _ _ (exec_run _ _ _ _ _ _ E))
    as [(m & Htr)|[(tab & m & Htr)|(tab & tabs & rest & Htr & _)]].
  all: destruct pre as [|x [|y pre]]; cbn in Hpre; try lia.
  all: cbn in Htr; simplify_eq; try discriminate; done.
Qed.

Lemma pass_swallows_read_failures_witness :
  @nil event = []
  /\ filter (fun e => mutates e = true)
       (exec (failing_host GONE) (processFinalPosition 7) tt).1.1 = [].
Proof.
  exact (pass_swallows_read_failures (failing_host GONE) tt tt 7 _ tt
           [] (EvTabsGet 7 (Rejected GONE)) [] GONE
           eq_refl eq_refl (Nat.le_0_l 1) eq_refl).
Defined.

(** X10. A pass leaves alone every tab that rests outside the two zones: an
    unpinned tab that is not at the boundary (index 0 when nothing is pinned,
    index [pinnedCount] otherwise) and a pinned tab before the last two
    places of the pinned zone.  Once it has read the tab and the pinned tabs
    of its window, it makes no further call. *)
Theorem pass_leaves_alone {state : Type} (h : host state) (s s' : state)
  tabId tab tabs rest tr u :
  exec h (processFinalPosition tabId) s = (tr, u, s') ->
  tr = EvTabsGet tabId (Resolved tab)
       :: EvTabsQuery (PinnedInWindow (Tab.windowId tab)) (Resolved tabs)
       :: rest ->
  let pinnedCount := Z.of_nat (length tabs) in
  (Tab.pinned tab = false
   /\ Tab.index tab <> (if pinnedCount =? 0 then 0 else pinnedCount))
  \/ (Tab.pinned tab = true
      /\ (pinnedCount = 0 \/ Tab.index tab < Z.max 0 (pinnedCount - 2))) ->
  rest = [].
Proof.
  intros E -> pinnedCount Hzone.
  pose proof (processFinalPosition_dispatch _ _ _ _ _
                (exec_run _ _ _ _ _ _ E)) as Hd.
  fold pinnedCount in Hd.
  assert (classify (Tab.index tab) (Tab.pinned tab) pinnedCount = NoAction)
    as Hclass.
  { unfold classify. destruct Hzone as [[-> Hidx]|[-> Hidx]]; cbn [negb andb].
    - destruct (pinnedCount =? 0) eqn:E0.
      + assert ((Tab.index tab =? 0) = false) as -> by lia.
        assert ((pinnedCount >? 0) = false) as -> by lia. reflexivity.
      + assert ((Tab.index tab =? pinnedCount) = false) as -> by lia.
        now rewrite andb_false_r.
    - destruct (pinnedCount >=? 1) eqn:E1; [|reflexivity].
      assert ((Tab.index tab >=? Z.max 0 (pinnedCount - 2)) = false) as -> by lia.
      reflexivity. }
  now rewrite Hclass in Hd.
Qed.

(** A pinned tab at index 0 of three pinned tabs. *)
Lemma pass_leaves_alone_witness : @nil event = [].
Proof.
  exact (pass_leaves_alone (steady_host (tab7 0 true) three_pinned) tt tt
           7 (tab7 0 true) three_pinned [] _ tt eq_refl eq_refl
           (or_intror (conj eq_refl (or_intror eq_refl)))).
Defined.




Lemma retry_bounded_run_total tabId action targetIndex tr r :
  runs (executeWithRetry tabId action targetIndex DEFAULT_MAX_RETRIES) tr r ->
  (reads tr <= 15)%nat /\ (length (waits tr) <= 15)%nat
  /\ (Qsum (waits tr) <= 30000)%Q.
Proof.
  intros H.
  destruct (retry_bounded_run _ _ _ _ _ _ _ H) as (k & Hk1 & Hk2 & Hk3).
  unfold DEFAULT_MAX_RETRIES in Hk2.
  split; [exact Hk2|].
  rewrite Hk3, length_map, length_seq. split; [lia|].
  eapply Qle_trans; [apply Qsum_backoff_le|].
  assert (inject_Z (Z.of_nat k) <= 15)%Q as Hle
      by (change 15%Q with (inject_Z 15); rewrite <- Zle_Qle; lia).
  lra.
Qed.

(** X12. Against every host a pass comes to an end after at most 16 reads of
    its tab (its own and 15 attempts of the retry executor) and at most 15
    waits, which add up to 30000 at most. *)
Theorem pass_is_bounded {state : Type} (h : host state) (s : state) tabId :
  let tr := (exec h (processFinalPosition tabId) s).1.1 in
  (reads tr <= 16)%nat /\ (length (waits tr) <= 15)%nat
  /\ (Qsum (waits tr) <= 30000)%Q.
Proof.
  intros tr.
  pose proof (exec_runs h (processFinalPosition tabId) s) as H. fold tr in H.
  destruct (pass_shape _ _ _ H)
    as [(m & ->)|[(tab' & m & ->)|(tab' & tabs & rest & -> & Hrest)]].
  - split; [vm_compute; lia|]. split; [cbn; lia|]. unfold Qle; cbn; lia.
  - split; [vm_compute; lia|]. split; [cbn; lia|]. unfold Qle; cbn; lia.
  - assert ((reads rest <= 15)%nat /\ (length (waits rest) <= 15)%nat
            /\ (Qsum (waits rest) <= 30000)%Q) as (H1 & H2 & H3).
    { destruct (classify (Tab.index tab') (Tab.pinned tab')
                  (Z.of_nat (length tabs))).
      - destruct Hrest as (_ & _ & b & Hrun).
        exact (retry_bounded_run_total _ _ _ _ _ Hrun).
      - destruct Hrest as (_ & _ & b & Hrun).
        exact (retry_bounded_run_total _ _ _ _ _ Hrun).
      - subst rest. split; [vm_compute; lia|]. split; [cbn; lia|].
        unfold Qle; cbn; lia. }
    change (EvTabsGet tabId (Resolved tab')
            :: EvTabsQuery (PinnedInWindow (Tab.windowId tab')) (Resolved tabs)
            :: rest)
      with ([ EvTabsGet tabId (Resolved tab');
              EvTabsQuery (PinnedInWindow (Tab.windowId tab')) (Resolved tabs) ]
            ++ rest).
    rewrite reads_app, waits_app.
    change (reads [ EvTabsGet tabId (Resolved tab');
                    EvTabsQuery (PinnedInWindow (Tab.windowId tab'))
                      (Resolved tabs) ]) with 1%nat.
    cbn [waits app]. split; [lia|]. split; [exact H2|exact H3].
Qed.

(** * Further properties of the drag debouncer *)

(** ** Following one tab through a schedule *)

Lemma tab_view_fire tabId t st w :
  wf w -> tab_view tabId st w ->
  tab_view tabId (tab_fire tabId t st) (advance_to t w).
Proof.
  intros Hwf [Hps Hst]. unfold tab_fire, tab_view.
  destruct st as [[d|] out]; cbn [fst snd] in *.
  - destruct (d <=? t) eqn:Hd; cbn [fst snd].
    + destruct (advance_to_fires tabId t w d Hwf Hst) as [H1 H2]; [lia|].
      split; [now rewrite H2, Hps|exact H1].
    + destruct (advance_to_early tabId t w d Hwf Hst) as [H1 H2]; [lia|].
      split; [now rewrite H2|exact H1].
  - destruct (advance_to_idle tabId t w Hwf Hst) as [H1 H2].
    split; [now rewrite H2|exact H1].
Qed.

Lemma tab_fire_out tabId t st w :
  wf w -> tab_view tabId st w ->
  passes_of tabId (advance_to t w) = (tab_fire tabId t st).2.
Proof. intros Hwf Hv. exact (proj1 (tab_view_fire tabId t st w Hwf Hv)). Qed.

Lemma tab_view_step tabId st w t i :
  wf w -> now w <= t -> tab_view tabId st w ->
  tab_view tabId (tab_step tabId st (t, i)) (deliver w (t, i)).
Proof.
  intros Hwf Hnow Hv. unfold tab_step, deliver. cbn [fst snd].
  pose proof (tab_view_fire tabId t st w Hwf Hv) as [Hps Hst].
  assert (wf (advance_to t w)) as Hwf1 by auto with world.
  pose proof (now_advance_to t w Hnow) as Hnow1.
  destruct (decide (i = Moved tabId)) as [->|Hmov].
  - cbn [handle]. destruct (onMoved_pending tabId (advance_to t w)) as [H1 H2].
    rewrite Hnow1 in H1. split; cbn [fst snd]; [now rewrite H2|exact H1].
  - destruct (decide (i = Removed tabId)) as [->|Hrem].
    + cbn [handle].
      destruct (onRemoved_spec tabId (advance_to t w)) as (H1 & H2 & _).
      split; cbn [fst snd]; [now rewrite H2|exact H1].
    + destruct (handle_other tabId i _ Hwf1 Hmov Hrem) as (H1 & H2 & H3).
      split; [now rewrite H2|].
      destruct (tab_fire tabId t st).1 as [d|]; [now apply H3|now rewrite H1].
Qed.

(** The shared map and timer table do for each tab what a debouncer of its
    own would do. *)
Lemma tab_view_run tabId sched :
  forall w st t0,
    wf w -> now w <= t0 -> chronological_from t0 sched = true ->
    tab_view tabId st w ->
    tab_view tabId (tab_run tabId sched st) (run sched w).
Proof.
  induction sched as [|[t i] sched IH]; intros w st t0 Hwf Hnow Hchron Hv;
    [exact Hv|].
  cbn in Hchron. apply andb_true_iff in Hchron as [Hle Hchron].
  apply Z.leb_le in Hle.
  change (tab_run tabId ((t, i) :: sched) st)
    with (tab_run tabId sched (tab_step tabId st (t, i))).
  change (run ((t, i) :: sched) w) with (run sched (deliver w (t, i))).
  apply (IH _ _ t); [auto with world| |exact Hchron|].
  - unfold deliver. cbn [fst snd]. rewrite now_handle, now_advance_to; lia.
  - apply tab_view_step; [exact Hwf|lia|exact Hv].
Qed.

Lemma tab_view_boot tabId : tab_view tabId (None, []) boot.
Proof. split; [reflexivity|]. cbn. apply lookup_empty. Qed.

(** From start-up: the passes of a tab and its entry, read off its own
    state. *)
Lemma tab_view_final tabId sched t_end :
  chronological sched = true ->
  tab_view tabId (tab_fire tabId t_end (tab_run tabId sched (None, [])))
    (advance_to t_end (run sched boot)).
Proof.
  intros Hchron. apply tab_view_fire; [auto with world|].
  apply (tab_view_run tabId sched boot (None, []) 0);
    [apply wf_boot|cbn; lia|exact Hchron|apply tab_view_boot].
Qed.

(** ** Tabs do not interfere *)

Lemma tab_fire_fire tabId t t' st :
  t <= t' -> tab_fire tabId t' (tab_fire tabId t st) = tab_fire tabId t' st.
Proof.
  intros Hle. unfold tab_fire. destruct st as [[d|] out]; cbn [fst snd];
    [|reflexivity].
  destruct (d <=? t) eqn:E; cbn [fst snd].
  - assert ((d <=? t') = true) as -> by lia. reflexivity.
  - reflexivity.
Qed.

Lemma tab_step_other tabId st ti :
  ~ concerns tabId ti -> tab_step tabId st ti = tab_fire tabId ti.1 st.
Proof.
  intros Hno. unfold tab_step, concerns in *.
  destruct (decide (ti.2 = Moved tabId)); [tauto|].
  destruct (decide (ti.2 = Removed tabId)); [tauto|reflexivity].
Qed.

Lemma tab_step_fire tabId t st ti :
  t <= ti.1 -> tab_step tabId (tab_fire tabId t st) ti = tab_step tabId st ti.
Proof. intros Hle. unfold tab_step. now rewrite tab_fire_fire. Qed.

(** Letting time pass earlier changes nothing for what follows. *)
Lemma tab_run_absorb tabId t t_end sched st :
  t <= t_end ->
  chronological_from t sched = true ->
  tab_fire tabId t_end (tab_run tabId sched (tab_fire tabId t st))
  = tab_fire tabId t_end (tab_run tabId sched st).
Proof.
  intros Hend Hchron. destruct sched as [|[t' i] sched].
  - cbn. now apply tab_fire_fire.
  - cbn in Hchron. apply andb_true_iff in Hchron as [Hle _].
    apply Z.leb_le in Hle.
    change (tab_run tabId ((t', i) :: sched) (tab_fire tabId t st))
      with (tab_run tabId sched (tab_step tabId (tab_fire tabId t st) (t', i))).
    now rewrite tab_step_fire.
Qed.

Lemma chronological_from_weaken t0 t0' sched :
  t0' <= t0 -> chronological_from t0 sched = true ->
  chronological_from t0' sched = true.
Proof.
  destruct sched as [|[t i] sched]; [reflexivity|]. cbn.
  intros Hle [H1 H2]%andb_true_iff. apply andb_true_iff. split; [lia|exact H2].
Qed.

Lemma chronological_filter (P : Z * input -> Prop) `{!forall ti, Decision (P ti)}
  sched :
  forall t0, chronological_from t0 sched = true ->
             chronological_from t0 (filter P sched) = true.
Proof.
  induction sched as [|[t i] sched IH]; intros t0 Hchron; [reflexivity|].
  cbn in Hchron. apply andb_true_iff in Hchron as [Hle Hchron].
  destruct (decide (P (t, i))) as [Hp|Hp].
  - rewrite filter_cons_True by exact Hp. cbn.
    apply andb_true_iff. split; [exact Hle|now apply IH].
  - rewrite filter_cons_False by exact Hp.
    apply IH. apply (chronological_from_weaken t); [lia|exact Hchron].
Qed.

(** The state kept for a tab depends on the inputs of that tab only. *)
Lemma tab_run_filter tabId t_end sched :
  forall t0 st,
    chronological_from t0 sched = true ->
    arrive_by t_end sched = true ->
    tab_fire tabId t_end (tab_run tabId sched st)
    = tab_fire tabId t_end (tab_run tabId (filter (concerns tabId) sched) st).
Proof.
  induction sched as [|[t i] sched IH]; intros t0 st Hchron Hby; [reflexivity|].
  cbn in Hchron, Hby.
  apply andb_true_iff in Hchron as [Hle Hchron].
  apply andb_true_iff in Hby as [Hend Hby]. apply Z.leb_le in Hend.
  change (tab_run tabId ((t, i) :: sched) st)
    with (tab_run tabId sched (tab_step tabId st (t, i))).
  destruct (decide (concerns tabId (t, i))) as [Hc|Hc].
  - rewrite filter_cons_True by exact Hc.
    change (tab_run tabId ((t, i) :: filter (concerns tabId) sched) st)
      with (tab_run tabId (filter (concerns tabId) sched)
              (tab_step tabId st (t, i))).
    now apply (IH t).
  - rewrite filter_cons_False by exact Hc.
    rewrite (tab_step_other _ _ _ Hc). cbn [fst].
    rewrite (IH t) by assumption.
    apply tab_run_absorb; [exact Hend|].
    now apply chronological_filter.
Qed.

(** X13. Tabs do not interfere: the passes started for a tab depend on the
    move and removal notifications of that tab only.  Two chronological
    schedules that agree on these start the same passes for it, at the same
    times, whatever the other tabs and the other timers do. *)
Theorem tabs_do_not_interfere tabId sched1 sched2 t_end :
  chronological sched1 = true -> chronological sched2 = true ->
  arrive_by t_end sched1 = true -> arrive_by t_end sched2 = true ->
  filter (concerns tabId) sched1 = filter (concerns tabId) sched2 ->
  passes_of tabId (advance_to t_end (run sched1 boot))
  = passes_of tabId (advance_to t_end (run sched2 boot)).
Proof.
  intros Hc1 Hc2 Hb1 Hb2 Hsame.
  rewrite (proj1 (tab_view_final tabId sched1 t_end Hc1)).
  rewrite (proj1 (tab_view_final tabId sched2 t_end Hc2)).
  rewrite (tab_run_filter tabId t_end sched1 0 _ Hc1 Hb1).
  rewrite (tab_run_filter tabId t_end sched2 0 _ Hc2 Hb2).
  now rewrite Hsame.
Qed.

(** Tab 7 is dragged in three moves, with and without tab 8 and the badge
    around it. *)
Lemma tabs_do_not_interfere_witness :
  passes_of 7
    (advance_to 5000 (run (sample_history ++ (200, Moved 7) :: sample_burst) boot))
  = passes_of 7
      (advance_to 5000 (run [(200, Moved 7); (500, Moved 7); (1000, Moved 7)] boot)).
Proof.
  apply tabs_do_not_interfere; reflexivity.
Defined.

(** ** Every pass has its move *)

Lemma tab_inv_fire tabId seen t0 t st :
  t0 <= t -> tab_inv tabId seen t0 st ->
  tab_inv tabId seen t (tab_fire tabId t st).
Proof.
  intros Hle [Hseen Hpend Hout Hsp]. unfold tab_fire.
  destruct st as [[d|] out]; cbn [fst snd] in *.
  - destruct (Hpend d eq_refl) as (Hmv & Hlast & Hgap).
    destruct (d <=? t) eqn:Hd; cbn [fst snd].
    + split; cbn [fst snd].
      * intros ti Hin. specialize (Hseen ti Hin). lia.
      * discriminate.
      * apply Forall_app. split.
        -- eapply Forall_impl; [exact Hout|]. cbn.
           intros p (? & ? & ? & ?). repeat split; try assumption. lia.
        -- constructor; [|constructor]. cbn.
           split; [reflexivity|]. split; [lia|]. split; [exact Hmv|].
           intros ti Hin Hc. left. now apply Hlast.
      * intros i j p q Hij Hi Hj.
        destruct (decide (j < length out)%nat) as [Hlt|Hge].
        -- rewrite lookup_app_l in Hi, Hj by lia. eauto.
        -- rewrite lookup_app_r in Hj by lia.
           destruct (j - length out)%nat as [|k] eqn:Ek; cbn in Hj;
             [|discriminate].
           injection Hj as <-. cbn.
           rewrite lookup_app_l in Hi by lia.
           rewrite Forall_forall in Hgap. apply Hgap.
           eapply list_elem_of_lookup_2, Hi.
    + split; cbn [fst snd]; try assumption.
      * intros ti Hin. specialize (Hseen ti Hin). lia.
      * eapply Forall_impl; [exact Hout|]. cbn.
        intros p (? & ? & ? & ?). repeat split; try assumption. lia.
  - split; cbn [fst snd]; try assumption.
    + intros ti Hin. specialize (Hseen ti Hin). lia.
    + eapply Forall_impl; [exact Hout|]. cbn.
      intros p (? & ? & ? & ?). repeat split; try assumption. lia.
Qed.

Lemma tab_inv_out_snoc tabId seen t i out :
  Forall (fun p => p.2 = tabId /\ p.1 <= t
                   /\ (p.1 - DEBOUNCE_DELAY, Moved tabId) ∈ seen
                   /\ quiet_between tabId seen (p.1 - DEBOUNCE_DELAY) p.1) out ->
  Forall (fun p => p.2 = tabId /\ p.1 <= t
                   /\ (p.1 - DEBOUNCE_DELAY, Moved tabId) ∈ seen ++ [(t, i)]
                   /\ quiet_between tabId (seen ++ [(t, i)])
                        (p.1 - DEBOUNCE_DELAY) p.1) out.
Proof.
  intros Hout. eapply Forall_impl; [exact Hout|]. cbn.
  intros p (Hp & Hle & Hmv & Hq). split; [exact Hp|]. split; [exact Hle|].
  split; [apply elem_of_app; now left|].
  intros ti [Hin| ->%list_elem_of_singleton]%elem_of_app Hc.
  - now apply Hq.
  - right. exact Hle.
Qed.

Lemma tab_inv_step tabId seen t0 st t i :
  t0 <= t -> tab_inv tabId seen t0 st ->
  tab_inv tabId (seen ++ [(t, i)]) t (tab_step tabId st (t, i)).
Proof.
  intros Hle Hinv.
  pose proof (tab_inv_fire tabId seen t0 t st Hle Hinv) as [Hseen Hpend Hout Hsp].
  assert (Hseen' : forall ti, ti ∈ seen ++ [(t, i)] -> ti.1 <= t).
  { intros ti [Hin| ->%list_elem_of_singleton]%elem_of_app;
      [now apply Hseen|reflexivity]. }
  unfold tab_step. cbn [fst snd].
  set (st' := tab_fire tabId t st) in *.
  destruct (decide (i = Moved tabId)) as [->|Hm].
  - split; cbn [fst snd].
    + exact Hseen'.
    + intros d [= <-].
      replace (t + DEBOUNCE_DELAY - DEBOUNCE_DELAY) with t by lia.
      split; [apply elem_of_app; right; now apply list_elem_of_singleton|].
      split; [intros ti Hin _; now apply Hseen'|].
      eapply Forall_impl; [exact Hout|]. cbn. intros p (_ & ? & _). lia.
    + now apply tab_inv_out_snoc.
    + exact Hsp.
  - destruct (decide (i = Removed tabId)) as [->|Hr].
    + split; cbn [fst snd].
      * exact Hseen'.
      * discriminate.
      * now apply tab_inv_out_snoc.
      * exact Hsp.
    + split.
      * exact Hseen'.
      * intros d Hd. destruct (Hpend d Hd) as (Hmv & Hlast & Hgap).
        split; [apply elem_of_app; now left|]. split; [|exact Hgap].
        intros ti [Hin| ->%list_elem_of_singleton]%elem_of_app Hc;
          [now apply Hlast|].
        destruct Hc as [Hc|Hc]; cbn in Hc; congruence.
      * now apply tab_inv_out_snoc.
      * exact Hsp.
Qed.

Lemma tab_inv_run tabId sched :
  forall seen t0 st,
    chronological_from t0 sched = true ->
    tab_inv tabId seen t0 st ->
    exists t1, tab_inv tabId (seen ++ sched) t1 (tab_run tabId sched st).
Proof.
  induction sched as [|[t i] sched IH]; intros seen t0 st Hchron Hinv.
  - exists t0. now rewrite app_nil_r.
  - cbn in Hchron. apply andb_true_iff in Hchron as [Hle Hchron].
    apply Z.leb_le in Hle.
    change (tab_run tabId ((t, i) :: sched) st)
      with (tab_run tabId sched (tab_step tabId st (t, i))).
    replace (seen ++ (t, i) :: sched) with ((seen ++ [(t, i)]) ++ sched)
      by now rewrite <- app_assoc.
    apply (IH (seen ++ [(t, i)]) t (tab_step tabId st (t, i)) Hchron).
    now apply (tab_inv_step tabId seen t0).
Qed.

Lemma tab_inv_boot tabId : tab_inv tabId [] 0 (None, []).
Proof.
  split; cbn.
  - intros ti []%elem_of_nil.
  - discriminate.
  - constructor.
  - intros i j p q _ Hi. now rewrite lookup_nil in Hi.
Qed.

(** The state kept for a tab at the end of a schedule, with what holds of
    it. *)
Lemma tab_final tabId sched t_end :
  chronological sched = true ->
  exists st t1,
    tab_inv tabId sched t1 st
    /\ tab_view tabId (tab_fire tabId t_end st) (advance_to t_end (run sched boot)).
Proof.
  intros Hchron.
  destruct (tab_inv_run tabId sched [] 0 (None, []) Hchron (tab_inv_boot tabId))
    as [t1 Hinv].
  exists (tab_run tabId sched (None, [])), t1.
  split; [exact Hinv|]. now apply tab_view_final.
Qed.

(** Firing the pending timer late keeps what holds of the passes, the bound
    by the clock apart. *)
Lemma tab_fire_passes tabId seen t0 st t p :
  tab_inv tabId seen t0 st ->
  p ∈ (tab_fire tabId t st).2 ->
  (p.1 - DEBOUNCE_DELAY, Moved tabId) ∈ seen
  /\ quiet_between tabId seen (p.1 - DEBOUNCE_DELAY) p.1.
Proof.
  intros [Hseen Hpend Hout Hsp]. unfold tab_fire.
  assert (Hold : p ∈ st.2 ->
                 (p.1 - DEBOUNCE_DELAY, Moved tabId) ∈ seen
                 /\ quiet_between tabId seen (p.1 - DEBOUNCE_DELAY) p.1).
  { intros Hin. rewrite Forall_forall in Hout.
    destruct (Hout p Hin) as (_ & _ & ? & ?). now split. }
  destruct st as [[d|] out]; cbn [fst snd] in *; [|exact Hold].
  destruct (d <=? t); cbn [fst snd]; [|exact Hold].
  intros [Hin| ->%list_elem_of_singleton]%elem_of_app; [now apply Hold|].
  destruct (Hpend d eq_refl) as (Hmv & Hlast & _). cbn.
  split; [exact Hmv|]. intros ti Hin Hc. left. now apply Hlast.
Qed.

Lemma tab_fire_spaced tabId seen t0 st t (i j : nat) p q :
  tab_inv tabId seen t0 st ->
  (i < j)%nat ->
  (tab_fire tabId t st).2 !! i = Some p ->
  (tab_fire tabId t st).2 !! j = Some q ->
  p.1 + DEBOUNCE_DELAY <= q.1.
Proof.
  intros [Hseen Hpend Hout Hsp] Hij. unfold tab_fire.
  destruct st as [[d|] out]; cbn [fst snd] in *; [|now apply Hsp].
  destruct (d <=? t); cbn [fst snd]; [|now apply Hsp].
  intros Hi Hj.
  destruct (decide (j < length out)%nat) as [Hlt|Hge].
  - rewrite lookup_app_l in Hi, Hj by lia. eauto.
  - rewrite lookup_app_r in Hj by lia.
    destruct (j - length out)%nat as [|k] eqn:Ek; cbn in Hj; [|discriminate].
    injection Hj as <-. cbn.
    rewrite lookup_app_l in Hi by lia.
    destruct (Hpend d eq_refl) as (_ & _ & Hgap).
    rewrite Forall_forall in Hgap. apply Hgap.
    eapply list_elem_of_lookup_2, Hi.
Qed.

Lemma passes_of_elem tabId w p :
  p ∈ passes_of tabId w <-> p ∈ passes w /\ p.2 = tabId.
Proof. unfold passes_of. rewrite list_elem_of_filter. tauto. Qed.

Lemma pass_follows_move_run sched t_end p :
  chronological sched = true ->
  p ∈ passes (advance_to t_end (run sched boot)) ->
  (p.1 - DEBOUNCE_DELAY, Moved p.2) ∈ sched
  /\ quiet_between p.2 sched (p.1 - DEBOUNCE_DELAY) p.1.
Proof.
  intros Hchron Hin.
  destruct (tab_final p.2 sched t_end Hchron) as (st & t1 & Hinv & Hps & _).
  apply (tab_fire_passes p.2 sched t1 st t_end p Hinv).
  rewrite <- Hps. now apply passes_of_elem.
Qed.

(** X14. Every pass has its move: a pass for a tab is started exactly
    [DEBOUNCE_DELAY] after a move notification for that tab, and no move or
    removal notification for the tab arrived strictly between the two. *)
Theorem pass_follows_move sched t_end t tabId :
  chronological sched = true ->
  (t, tabId) ∈ passes (advance_to t_end (run sched boot)) ->
  (t - DEBOUNCE_DELAY, Moved tabId) ∈ sched
  /\ forall t' i, (t', i) ∈ sched -> i = Moved tabId \/ i = Removed tabId ->
                  t' <= t - DEBOUNCE_DELAY \/ t <= t'.
Proof.
  intros Hchron Hin.
  destruct (pass_follows_move_run sched t_end (t, tabId) Hchron Hin) as [Hmv Hq].
  split; [exact Hmv|].
  intros t' i Hi Hc. exact (Hq (t', i) Hi Hc).
Qed.

Lemma pass_follows_move_witness :
  (1000, Moved 7) ∈ sample_burst
  /\ forall t' i, (t', i) ∈ sample_burst -> i = Moved 7 \/ i = Removed 7 ->
                  t' <= 1000 \/ 1600 <= t'.
Proof.
  apply (pass_follows_move sample_burst 5000 1600 7); [reflexivity|].
  assert (passes (advance_to 5000 (run sample_burst boot)) = [(1600, 7)])
    as -> by reflexivity.
  now apply list_elem_of_singleton.
Defined.

(** X15. At most one pass per tab and delay: two passes for the same tab
    are at least [DEBOUNCE_DELAY] apart, the earlier one first in the log. *)
Theorem passes_spaced sched t_end tabId (i j : nat) p q :
  chronological sched = true ->
  (i < j)%nat ->
  passes_of tabId (advance_to t_end (run sched boot)) !! i = Some p ->
  passes_of tabId (advance_to t_end (run sched boot)) !! j = Some q ->
  p.1 + DEBOUNCE_DELAY <= q.1.
Proof.
  intros Hchron Hij.
  destruct (tab_final tabId sched t_end Hchron) as (st & t1 & Hinv & Hps & _).
  rewrite Hps. now apply (tab_fire_spaced tabId sched t1 st t_end).
Qed.

Lemma passes_spaced_witness : 600 + DEBOUNCE_DELAY <= 1300.
Proof.
  exact (passes_spaced [(0, Moved 7); (700, Moved 7)] 5000 7 0 1
           (600, 7) (1300, 7) eq_refl ltac:(lia) eq_refl eq_refl).
Defined.

(** ** The map and the timer table *)

Lemma debounce_timers_elem tabId w tm :
  tm ∈ debounce_timers tabId w <-> cb tm = DebounceFire tabId /\ tm ∈ timers w.
Proof. unfold debounce_timers. now rewrite list_elem_of_filter. Qed.

Lemma no_entry_no_timer tabId w :
  wf w -> dragDebounce w !! tabId = None -> debounce_timers tabId w = [].
Proof.
  intros Hwf Hnone.
  destruct (debounce_timers tabId w) as [|tm l] eqn:E; [reflexivity|].
  assert (Hin : tm ∈ debounce_timers tabId w) by (rewrite E; left).
  apply debounce_timers_elem in Hin as [Hcb Hin].
  rewrite (wf_registered w Hwf _ _ Hin Hcb) in Hnone. discriminate.
Qed.

Lemma entry_drains_run tabId sched t_end :
  chronological sched = true ->
  (forall t, (t, Moved tabId) ∈ sched -> t + DEBOUNCE_DELAY <= t_end) ->
  dragDebounce (advance_to t_end (run sched boot)) !! tabId = None.
Proof.
  intros Hchron Hold.
  destruct (tab_final tabId sched t_end Hchron) as (st & t1 & Hinv & _ & Hv).
  unfold tab_fire in Hv. destruct st as [[d|] out]; cbn [fst snd] in Hv.
  - destruct (inv_pending _ _ _ _ Hinv d eq_refl) as (Hmv & _).
    apply Hold in Hmv.
    assert ((d <=? t_end) = true) as Hd by lia.
    rewrite Hd in Hv. exact Hv.
  - exact Hv.
Qed.

(** X16. The map drains: once every move notification for a tab is at least
    [DEBOUNCE_DELAY] old, the map has no entry for the tab and the timer
    table no debounce timer for it. *)
Theorem entry_drains tabId sched t_end :
  chronological sched = true ->
  (forall t, (t, Moved tabId) ∈ sched -> t + DEBOUNCE_DELAY <= t_end) ->
  dragDebounce (advance_to t_end (run sched boot)) !! tabId = None
  /\ debounce_timers tabId (advance_to t_end (run sched boot)) = [].
Proof.
  intros Hchron Hold.
  pose proof (entry_drains_run tabId sched t_end Hchron Hold) as Hnone.
  split; [exact Hnone|].
  apply no_entry_no_timer; [auto with world|exact Hnone].
Qed.

Lemma entry_drains_witness :
  dragDebounce (advance_to 1600 (run sample_burst boot)) !! 7 = None
  /\ debounce_timers 7 (advance_to 1600 (run sample_burst boot)) = [].
Proof.
  apply entry_drains; [reflexivity|].
  intros t Hin. unfold sample_burst in Hin.
  repeat (apply elem_of_cons in Hin as [Hin|Hin]; [injection Hin as ->; try discriminate; vm_compute; discriminate|]).
  now apply elem_of_nil in Hin.
Defined.

(** Timeout ids are never handed out twice. *)
Lemma ids_filter (P : timer -> Prop) `{!forall tm, Decision (P tm)} l :
  NoDup (timer_id <$> l) -> NoDup (timer_id <$> filter P l).
Proof.
  intros Hnd. eapply sublist_NoDup; [exact Hnd|].
  apply fmap_sublist, sublist_filter.
Qed.

Lemma ids_snoc l n d c :
  (forall tm, tm ∈ l -> timer_id tm < n) ->
  NoDup (timer_id <$> l) -> NoDup (timer_id <$> l ++ [Timer n d c]).
Proof.
  intros Hfresh Hnd. rewrite fmap_app. apply NoDup_app.
  split; [exact Hnd|]. split; [|apply NoDup_singleton].
  intros x [tm [-> Hin]]%list_elem_of_fmap. cbn.
  intros Heq%list_elem_of_singleton. specialize (Hfresh tm Hin). lia.
Qed.

Lemma ids_handle i w :
  wf w -> NoDup (timer_id <$> timers w) ->
  NoDup (timer_id <$> timers (handle i w)).
Proof.
  intros Hwf Hnd. destruct i as [tabId|tabId| |delay]; cbn [handle].
  - rewrite onMoved_unfold.
    destruct (dragDebounce w !! tabId) as [pending|]; cbn [timers].
    + apply ids_snoc; [|now apply ids_filter].
      intros tm [_ Hin]%list_elem_of_filter. now apply (wf_fresh w Hwf).
    + apply ids_snoc; [apply (wf_fresh w Hwf)|exact Hnd].
  - unfold onRemoved.
    destruct (dragDebounce w !! tabId) as [pending|]; cbn [timers clearTimeout];
      [now apply ids_filter|exact Hnd].
  - cbn. apply ids_snoc; [apply (wf_fresh w Hwf)|exact Hnd].
  - cbn. apply ids_snoc; [apply (wf_fresh w Hwf)|exact Hnd].
Qed.

Lemma ids_fire_due fuel t w :
  NoDup (timer_id <$> timers w) ->
  NoDup (timer_id <$> timers (fire_due fuel t w)).
Proof.
  revert w; induction fuel as [|fuel IH]; intros w Hnd; cbn [fire_due];
    [exact Hnd|].
  destruct (next_due t w) as [tm|]; [|exact Hnd].
  apply IH. rewrite fire_timer_timers. now apply ids_filter.
Qed.

Lemma ids_advance_to t w :
  NoDup (timer_id <$> timers w) ->
  NoDup (timer_id <$> timers (advance_to t w)).
Proof. intros Hnd. unfold advance_to. cbn [timers]. now apply ids_fire_due. Qed.

Lemma ids_run sched :
  forall w, wf w -> NoDup (timer_id <$> timers w) ->
            NoDup (timer_id <$> timers (run sched w)).
Proof.
  induction sched as [|ti sched IH]; intros w Hwf Hnd; [exact Hnd|].
  change (run (ti :: sched) w) with (run sched (deliver w ti)).
  apply IH; [auto with world|].
  apply ids_handle; [auto with world|now apply ids_advance_to].
Qed.

Lemma one_timer_per_entry tabId w :
  wf w -> NoDup (timer_id <$> timers w) ->
  match dragDebounce w !! tabId with
  | Some timeoutId =>
      exists d, debounce_timers tabId w = [Timer timeoutId d (DebounceFire tabId)]
  | None => debounce_timers tabId w = []
  end.
Proof.
  intros Hwf Hnd.
  destruct (dragDebounce w !! tabId) as [timeoutId|] eqn:Hentry;
    [|now apply no_entry_no_timer].
  destruct (wf_pending w Hwf _ _ Hentry) as [d Hd]. exists d.
  assert (Hmine : Timer timeoutId d (DebounceFire tabId) ∈ debounce_timers tabId w)
    by now apply debounce_timers_elem.
  assert (Hnd' : NoDup (timer_id <$> debounce_timers tabId w))
    by now apply ids_filter.
  assert (Hid : forall tm, tm ∈ debounce_timers tabId w -> timer_id tm = timeoutId).
  { intros tm [Hcb Hin]%debounce_timers_elem.
    pose proof (wf_registered w Hwf _ _ Hin Hcb) as Hreg. congruence. }
  destruct (debounce_timers tabId w) as [|a [|b l]].
  - now apply elem_of_nil in Hmine.
  - apply list_elem_of_singleton in Hmine. now rewrite Hmine.
  - exfalso. cbn in Hnd'. apply NoDup_cons in Hnd' as [Hnot _].
    apply Hnot. rewrite (Hid a), <- (Hid b); [left| |left].
    right; left.
Qed.

(** X17. One timer per tab: whatever has arrived, the map has an entry for a
    tab exactly when the timer table holds a debounce timer for it, which is
    then the only one and the one the entry names. *)
Theorem one_timer_per_tab tabId sched t_end :
  match dragDebounce (advance_to t_end (run sched boot)) !! tabId with
  | Some timeoutId =>
      exists d, debounce_timers tabId (advance_to t_end (run sched boot))
                = [Timer timeoutId d (DebounceFire tabId)]
  | None => debounce_timers tabId (advance_to t_end (run sched boot)) = []
  end.
Proof.
  apply one_timer_per_entry; [auto with world|].
  apply ids_advance_to, ids_run; [apply wf_boot|constructor].
Qed.

(** ** A move taken back *)

Lemma filter_fresh l n d c :
  (forall tm, tm ∈ l -> timer_id tm < n) ->
  filter (fun tm => timer_id tm <> n) (l ++ [Timer n d c]) = l.
Proof.
  intros Hfresh. rewrite filter_app, filter_cons_False, filter_nil, app_nil_r
    by (cbn; tauto).
  induction l as [|tm l IH]; [reflexivity|].
  rewrite filter_cons_True.
  - f_equal. apply IH. intros tm' Hin. apply Hfresh. now right.
  - specialize (Hfresh tm ltac:(left)). lia.
Qed.

Lemma move_then_remove tabId w :
  wf w ->
  onRemoved tabId (onMoved tabId w)
  = World (now w) (nextTimerId w + 1) (timers (onRemoved tabId w))
      (dragDebounce (onRemoved tabId w)) (passes w).
Proof.
  intros Hwf. rewrite onMoved_unfold. unfold onRemoved at 1.
  destruct (dragDebounce w !! tabId) as [pending|] eqn:Hentry; cbn zeta;
    cbn [dragDebounce]; rewrite lookup_insert_eq;
    cbn [clearTimeout now nextTimerId timers dragDebounce passes].
  - unfold onRemoved. rewrite Hentry.
    cbn [clearTimeout now nextTimerId timers dragDebounce passes].
    f_equal.
    + apply filter_fresh.
      intros tm [_ Hin]%list_elem_of_filter. now apply (wf_fresh w Hwf).
    + apply delete_insert_eq.
  - unfold onRemoved. rewrite Hentry. f_equal.
    + apply filter_fresh, (wf_fresh w Hwf).
    + now apply delete_insert_id.
Qed.

(** X18. A move taken back: a removal notification handled right after a
    move notification for the same tab leaves the timer table, the map, the
    clock and the passes as the removal alone would; only a timeout id has
    been used up. *)
Theorem removal_undoes_move tabId sched t_end :
  let w := advance_to t_end (run sched boot) in
  onRemoved tabId (onMoved tabId w)
  = World (now w) (nextTimerId w + 1) (timers (onRemoved tabId w))
      (dragDebounce (onRemoved tabId w)) (passes w).
Proof. cbn zeta. apply move_then_remove. auto with world. Qed.
